(** * Pose2Sim: camera calibration and reprojection

    A shallow embedding of [Pose2Sim/calibration.py] and
    [Pose2Sim/Utilities/reproj_from_trc_calib.py].

    The Python code computes on numpy numbers.  The embedding is written once
    over an interface of arithmetic operations ([Number]) and read at two
    instances: IEEE binary64 ([float], what numpy's float64 is) where a
    statement is about the values the machine produces, and the real numbers
    ([R]) where a statement is about the algebra of the computation. *)

From Stdlib Require Import String Ascii Bool Arith ZArith NArith Lia List.
From Stdlib Require Import DecimalString DecimalNat.
From Stdlib Require Import Permutation Sorted.
From Stdlib Require Import Reals Lra.
From Stdlib Require Import Floats.
Import ListNotations.

Set Implicit Arguments.
Set Warnings "-register-all,-inexact-float".

(** ** Numbers *)

Class Number (A : Type) : Type := {
  nlit  : Z -> A;              (* an integer literal read as a number *)
  nadd  : A -> A -> A;
  nsub  : A -> A -> A;
  nmul  : A -> A -> A;
  ndiv  : A -> A -> A;
  nsqrt : A -> A
}.

Declare Scope num_scope.
Delimit Scope num_scope with num.
Infix "+" := nadd : num_scope.
Infix "-" := nsub : num_scope.
Infix "*" := nmul : num_scope.
Infix "/" := ndiv : num_scope.

(** Exact arithmetic. *)
#[export] Instance R_Number : Number R := {
  nlit := IZR;
  nadd := Rplus;
  nsub := Rminus;
  nmul := Rmult;
  ndiv := Rdiv;
  nsqrt := R_sqrt.sqrt
}.

(** IEEE 754 binary64. *)
Definition float_of_Z (z : Z) : float :=
  match z with
  | Z0 => PrimFloat.zero
  | Zpos _ => PrimFloat.of_uint63 (Uint63.of_Z z)
  | Zneg p => PrimFloat.opp (PrimFloat.of_uint63 (Uint63.of_Z (Zpos p)))
  end.

#[export] Instance float_Number : Number float := {
  nlit := float_of_Z;
  nadd := PrimFloat.add;
  nsub := PrimFloat.sub;
  nmul := PrimFloat.mul;
  ndiv := PrimFloat.div;
  nsqrt := PrimFloat.sqrt
}.


(** ** Python's failing operations

    An operation that raises in Python returns [None] here. *)

Definition obind {X Y : Type} (o : option X) (k : X -> option Y) : option Y :=
  match o with
  | Some x => k x
  | None => None
  end.

Notation "x <- e ;; k" := (obind e (fun x => k))
  (at level 61, e at next level, right associativity).
Notation "' p <- e ;; k" := (obind e (fun x => match x with p => k end))
  (at level 61, p pattern, e at next level, right associativity).

(** [[f x for x in l]] where [f] may raise. *)
Fixpoint mapM {X Y : Type} (f : X -> option Y) (l : list X) : option (list Y) :=
  match l with
  | [] => Some []
  | x :: l' => y <- f x ;; ys <- mapM f l' ;; Some (y :: ys)
  end.

(** [[l[i] for i in idx]]: [IndexError] on an index out of range. *)
Definition getitems {X : Type} (l : list X) (idx : list nat) : option (list X) :=
  mapM (nth_error l) idx.

(** ** Vectors and matrices (numpy arrays of rank 1 and 2) *)

Definition vec (A : Type) : Type := list A.
Definition mat (A : Type) : Type := list (list A).

Section Linear.
Context {A : Type} `{Number A}.
Local Open Scope num_scope.

(** [np.sum] of a list of numbers. *)
Definition nsum (l : list A) : A := fold_left nadd l (nlit 0).

(** [u.dot(v)] on two arrays of rank 1; numpy raises when the lengths differ. *)
Fixpoint dot_from (acc : A) (u v : vec A) : option A :=
  match u, v with
  | [], [] => Some acc
  | x :: u', y :: v' => dot_from (acc + x * y) u' v'
  | _, _ => None
  end.

Definition dot (u v : vec A) : option A := dot_from (nlit 0) u v.

(** Column [j] of a matrix. *)
Definition column (j : nat) (M : mat A) : option (vec A) :=
  mapM (fun row => nth_error row j) M.

(** [M.dot(N)] on two arrays of rank 2. *)
Definition matmul (M N : mat A) : option (mat A) :=
  match N with
  | [] => None
  | n0 :: _ =>
      cols <- mapM (fun j => column j N) (seq 0 (length n0)) ;;
      mapM (fun row => mapM (dot row) cols) M
  end.

(** [np.block([M, c.reshape(n,1)])]: a column appended to a matrix with as
    many rows. *)
Fixpoint hstack_col (M : mat A) (c : vec A) : option (mat A) :=
  match M, c with
  | [], [] => Some []
  | row :: M', x :: c' => rest <- hstack_col M' c' ;; Some ((row ++ [x]) :: rest)
  | _, _ => None
  end.

(** A matrix of the given shape. *)
Definition has_shape (r c : nat) (M : mat A) : Prop :=
  length M = r /\ Forall (fun row => length row = c) M.

Definition has_shapeb (r c : nat) (M : mat A) : bool :=
  Nat.eqb (length M) r && forallb (fun row => Nat.eqb (length row) c) M.

End Linear.

(** ** Text helpers *)

Local Open Scope string_scope.

(** [str(n)] for a natural number. *)
Definition str_of_nat (n : nat) : string :=
  NilEmpty.string_of_uint (Nat.to_uint n).

(** The format [{n:02d}]: decimal, padded with a zero to two digits. *)
Definition fmt_02d (n : nat) : string :=
  let s := str_of_nat n in
  if Nat.ltb (String.length s) 2 then "0" ++ s else s.

(** [os.path.join(a, b)] on POSIX paths. *)
Definition ends_with_slash (a : string) : bool :=
  match rev (list_ascii_of_string a) with
  | c :: _ => Ascii.eqb c "/"%char
  | [] => false
  end.

Definition path_join (a b : string) : string :=
  match b with
  | String "/"%char _ => b
  | _ => if String.eqb a "" || ends_with_slash a then a ++ b else a ++ "/" ++ b
  end.

(** [d[k]] on a dictionary kept as an association list in insertion order;
    [KeyError] is [None]. *)
Fixpoint lookup {V : Type} (k : string) (d : list (string * V)) : option V :=
  match d with
  | [] => None
  | (k', v) :: d' => if String.eqb k k' then Some v else lookup k d'
  end.

(** ** The calibration store: the persisted calibration file *)

(** The content of a calibration file as [toml.load] returns it: tables in
    file order, each a list of keys with their values.  [toml_write] prints
    every number with Python's [str] and [toml.load] reads the shortest
    decimal back to the same binary64, so a number stands for itself here. *)
Inductive toml_value (A : Type) : Type :=
| TStr (s : string)
| TBool (b : bool)
| TNum (a : A)
| TArr (l : list (toml_value A)).

Arguments TStr {A} s.
Arguments TBool {A} b.
Arguments TNum {A} a.
Arguments TArr {A} l.

Definition toml_table (A : Type) : Type := list (string * toml_value A).
Definition toml_doc (A : Type) : Type := list (string * toml_table A).

Section Store.
Context {A : Type} `{Number A}.

Definition as_num (v : toml_value A) : option A :=
  match v with TNum a => Some a | _ => None end.

Definition as_str (v : toml_value A) : option string :=
  match v with TStr s => Some s | _ => None end.

(** [np.array] of a list of numbers, and of a list of such lists. *)
Definition as_vec (v : toml_value A) : option (vec A) :=
  match v with TArr l => mapM as_num l | _ => None end.

Definition as_mat (v : toml_value A) : option (mat A) :=
  match v with TArr l => mapM as_vec l | _ => None end.

Definition tvec (l : list A) : toml_value A := TArr (map TNum l).

(** [M[i,j]] on a numpy matrix. *)
Definition idx2 (M : mat A) (i j : nat) : option A :=
  row <- nth_error M i ;; nth_error row j.

(** The block [toml_write] writes for camera [c] (lines 983-991); [None]
    when one of its subscripts raises [IndexError]. *)
Definition cam_block (C : list string) (S D : list (vec A)) (K : list (mat A))
    (R T : list (vec A)) (c : nat) : option (string * toml_table A) :=
  name <- nth_error C c ;;
  s <- nth_error S c ;; s0 <- nth_error s 0 ;; s1 <- nth_error s 1 ;;
  k <- nth_error K c ;;
  k00 <- idx2 k 0 0 ;; k02 <- idx2 k 0 2 ;; k11 <- idx2 k 1 1 ;; k12 <- idx2 k 1 2 ;;
  d <- nth_error D c ;;
  d0 <- nth_error d 0 ;; d1 <- nth_error d 1 ;; d2 <- nth_error d 2 ;; d3 <- nth_error d 3 ;;
  r <- nth_error R c ;;
  r0 <- nth_error r 0 ;; r1 <- nth_error r 1 ;; r2 <- nth_error r 2 ;;
  t <- nth_error T c ;;
  t0 <- nth_error t 0 ;; t1 <- nth_error t 1 ;; t2 <- nth_error t 2 ;;
  Some ("cam_" ++ fmt_02d (c + 1),
        [ ("name", TStr name);
          ("size", tvec [s0; s1]);
          ("matrix", TArr [ tvec [k00; nlit 0; k02];
                            tvec [nlit 0; k11; k12];
                            tvec [nlit 0; nlit 0; nlit 1] ]);
          ("distortions", tvec [d0; d1; d2; d3]);
          ("rotation", tvec [r0; r1; r2]);
          ("translation", tvec [t0; t1; t2]);
          ("fisheye", TBool false) ]).

(** The metadata block, [meta] of line 992. *)
Definition metadata_block : string * toml_table A :=
  ("metadata", [ ("adjusted", TBool false); ("error", TNum (nlit 0)) ]).

(** The loop of [toml_write]: the blocks written so far, and whether the loop
    ran to its end ([false]: a block raised, the file keeps what was written
    before it). *)
Fixpoint write_cams (C : list string) (S D : list (vec A)) (K : list (mat A))
    (R T : list (vec A)) (cs : list nat) : toml_doc A * bool :=
  match cs with
  | [] => ([], true)
  | c :: cs' =>
      match cam_block C S D K R T c with
      | None => ([], false)
      | Some b =>
          let '(bs, ok) := write_cams C S D K R T cs' in (b :: bs, ok)
      end
  end.

(** [toml_write(calib_path, C, S, D, K, R, T)]: the content of the file at
    [calib_path] when the call ends, and whether it returned ([true]) or
    raised ([false]). *)
Definition toml_write (C : list string) (S D : list (vec A)) (K : list (mat A))
    (R T : list (vec A)) : toml_doc A * bool :=
  let '(bs, ok) := write_cams C S D K R T (seq 0 (length C)) in
  if ok then ((bs ++ [metadata_block])%list, true) else (bs, false).

(** What the callers hold after calibration: [ret, C, S, D, K, R, T]. *)
Record calibration : Type := {
  cal_ret : list A;
  cal_C : list string;
  cal_S : list (vec A);
  cal_D : list (vec A);
  cal_K : list (mat A);
  cal_R : list (vec A);
  cal_T : list (vec A)
}.

(** The last steps of [calibrate_cams_all] that touch the file (line 1095):
    the residuals [ret] are not passed on. *)
Definition write_calibration (cal : calibration) : toml_doc A * bool :=
  toml_write (cal_C cal) (cal_S cal) (cal_D cal) (cal_K cal) (cal_R cal) (cal_T cal).

(** The cached-intrinsics branch of [calib_board_fun] (lines 356-367) on the
    loaded file [calib_data]. *)
Fixpoint retrieve_intrinsics (calib_data : toml_doc A) : option calibration :=
  match calib_data with
  | [] => Some {| cal_ret := []; cal_C := []; cal_S := []; cal_D := [];
                  cal_K := []; cal_R := []; cal_T := [] |}
  | (cam, tbl) :: rest =>
      if String.eqb cam "metadata" then retrieve_intrinsics rest
      else
        name <- obind (lookup "name" tbl) as_str ;;
        size <- obind (lookup "size" tbl) as_vec ;;
        k <- obind (lookup "matrix" tbl) as_mat ;;
        d <- obind (lookup "distortions" tbl) as_vec ;;
        r <- retrieve_intrinsics rest ;;
        Some {| cal_ret := nlit 0 :: cal_ret r;
                cal_C := name :: cal_C r;
                cal_S := size :: cal_S r;
                cal_D := d :: cal_D r;
                cal_K := k :: cal_K r;
                cal_R := [nlit 0; nlit 0; nlit 0] :: cal_R r;
                cal_T := [nlit 0; nlit 0; nlit 0] :: cal_T r |}
  end.

End Store.

(** ** The projection engine ([reproj_from_trc_calib.py]) *)

Section Projection.
Context {A : Type} `{Number A}.
Local Open Scope num_scope.

(** The three lines that build a projection matrix once [cv2.Rodrigues] has
    turned the rotation vector into the matrix [R]:
    [Kh = np.block([K, np.zeros(3).reshape(3,1)])],
    [H = np.block([[R, T.reshape(3,1)], [np.zeros(3), 1]])], [Kh.dot(H)]
    (lines 113-118; [calibrate_extrinsics] has the same lines, 534-537). *)
Definition projection_matrix (K R : mat A) (T : vec A) : option (mat A) :=
  Kh <- hstack_col K [nlit 0; nlit 0; nlit 0] ;;
  RT <- hstack_col R T ;;
  if has_shapeb 3 4 RT then
    matmul Kh (RT ++ [[nlit 0; nlit 0; nlit 0; nlit 1]])%list
  else None.

(** OpenCV's [cv2.Rodrigues], rotation vector to rotation matrix. *)
Variable Rodrigues : vec A -> option (mat A).

(** What [computeP] reads of one camera block. *)
Definition camera_entry (tbl : toml_table A) : option (mat A * vec A * vec A) :=
  K <- obind (lookup "matrix" tbl) as_mat ;;
  rot <- obind (lookup "rotation" tbl) as_vec ;;
  T <- obind (lookup "translation" tbl) as_vec ;;
  Some (K, rot, T).

(** [computeP(calib_file)] on the loaded file: one projection matrix per
    camera block, the metadata block skipped. *)
Fixpoint computeP (calib : toml_doc A) : option (list (mat A)) :=
  match calib with
  | [] => Some []
  | (cam, tbl) :: rest =>
      if String.eqb cam "metadata" then computeP rest
      else
        '(K, rot, T) <- camera_entry tbl ;;
        R <- Rodrigues rot ;;
        P <- projection_matrix K R T ;;
        Ps <- computeP rest ;;
        Some (P :: Ps)
  end.

(** One turn of [reprojection]'s loop:
    [P_cam[0].dot(Q) / P_cam[2].dot(Q)] and [P_cam[1].dot(Q) / P_cam[2].dot(Q)]. *)
Definition reproject_cam (P_cam : mat A) (Q : vec A) : option (A * A) :=
  r0 <- nth_error P_cam 0 ;;
  a0 <- dot r0 Q ;;
  r2 <- nth_error P_cam 2 ;;
  a2 <- dot r2 Q ;;
  r1 <- nth_error P_cam 1 ;;
  a1 <- dot r1 Q ;;
  Some (a0 / a2, a1 / a2).

(** [reprojection(P_all, Q)]: the lists [x_calc] and [y_calc]. *)
Fixpoint reprojection (P_all : list (mat A)) (Q : vec A) : option (list A * list A) :=
  match P_all with
  | [] => Some ([], [])
  | P_cam :: rest =>
      '(x, y) <- reproject_cam P_cam Q ;;
      '(xs, ys) <- reprojection rest Q ;;
      Some (x :: xs, y :: ys)
  end.

End Projection.

(** ** Trajectory tables ([yup2zup]) *)

(** The permutation of positions the spec describes: every consecutive
    triplet (x,y,z) becomes (z,x,y); what is left past the last full triplet
    is dropped. *)
Fixpoint rotate_triplets {Y : Type} (l : list Y) : list Y :=
  match l with
  | x :: y :: z :: rest => z :: x :: y :: rotate_triplets rest
  | _ => []
  end.

(** The inverse permutation: every triplet (z,x,y) back to (x,y,z). *)
Fixpoint unrotate_triplets {Y : Type} (l : list Y) : list Y :=
  match l with
  | z :: x :: y :: rest => x :: y :: z :: unrotate_triplets rest
  | _ => []
  end.

Section Trajectory.
(** A data frame: its columns in order, each a label with its values. *)
Variable X : Type.

Definition table : Type := list (string * X).

Definition columns (Q : table) : list string := map fst Q.

(** [Q[cols]]: selection by label.  pandas returns, for each requested label
    in turn, every column that carries it, and raises [KeyError] for a label
    no column carries. *)
Definition select_label (Q : table) (l : string) : option table :=
  match filter (fun c => String.eqb (fst c) l) Q with
  | [] => None
  | cs => Some cs
  end.

Definition getcols (Q : table) (cols : list string) : option table :=
  css <- mapM (select_label Q) cols ;; Some (concat css).

(** The labels [[cols[i*3+a], cols[i*3+b], cols[i*3+c]] for i in
    range(int(len(cols)/3))], flattened. *)
Definition triplet_labels (a b c : nat) (cols : list string) : option (list string) :=
  tr <- mapM (fun i =>
                x <- nth_error cols (i * 3 + a) ;;
                y <- nth_error cols (i * 3 + b) ;;
                z <- nth_error cols (i * 3 + c) ;;
                Some [x; y; z])
             (seq 0 (length cols / 3)) ;;
  Some (concat tr).

(** [yup2zup(Q)] (lines 178-182). *)
Definition yup2zup (Q : table) : option table :=
  cols <- triplet_labels 2 0 1 (columns Q) ;;
  getcols Q cols.

(** Modelled from the spec: the inverse of [yUpToZUp] ("[yUpToZUp] followed by
    its inverse restores the original column ordering"); no function under
    src/ undoes [yup2zup].  It is written as [yup2zup] is, with the triplet
    order that sends (z,x,y) back to (x,y,z). *)
Definition zup2yup (Q : table) : option table :=
  cols <- triplet_labels 1 2 0 (columns Q) ;;
  getcols Q cols.

End Trajectory.

(** ** Natural sort of camera names *)

(** Modelled from the spec: [natural_sort] of [Pose2Sim.common], which both
    vendor readers call, is not under src/.  The spec calls it "a natural
    (digit-aware) ascending sort of the camera's display name": a name is cut
    into alternating runs of non-digits and digits, a run of digits counts as
    the number it writes, and names are ordered by their runs, first
    difference first.  The sort is stable, as Python's [sorted] is. *)
Inductive chunk : Type :=
| Txt (s : list ascii)
| Num (n : N).

Definition digit_of (c : ascii) : option N :=
  let n := N_of_ascii c in
  if (48 <=? n)%N && (n <=? 57)%N then Some (n - 48)%N else None.

Inductive scan : Type :=
| InTxt (rev_text : list ascii)
| InNum (n : N).

Fixpoint natural_key_from (s : list ascii) (r : scan) : list chunk :=
  match s with
  | [] =>
      match r with
      | InTxt t => [Txt (rev t)]
      | InNum n => [Num n; Txt []]
      end
  | c :: s' =>
      match digit_of c, r with
      | Some d, InTxt t => Txt (rev t) :: natural_key_from s' (InNum d)
      | Some d, InNum n => natural_key_from s' (InNum (10 * n + d)%N)
      | None, InTxt t => natural_key_from s' (InTxt (c :: t))
      | None, InNum n => Num n :: natural_key_from s' (InTxt [c])
      end
  end.

Definition natural_key (s : string) : list chunk :=
  natural_key_from (list_ascii_of_string s) (InTxt []).

Fixpoint text_compare (s t : list ascii) : comparison :=
  match s, t with
  | [], [] => Eq
  | [], _ :: _ => Lt
  | _ :: _, [] => Gt
  | a :: s', b :: t' =>
      match N.compare (N_of_ascii a) (N_of_ascii b) with
      | Eq => text_compare s' t'
      | c => c
      end
  end.

(** Runs of one kind meet at every position of two keys; the two mixed cases
    are there to make the comparison total. *)
Definition chunk_compare (a b : chunk) : comparison :=
  match a, b with
  | Txt s, Txt t => text_compare s t
  | Num m, Num n => N.compare m n
  | Txt _, Num _ => Lt
  | Num _, Txt _ => Gt
  end.

Fixpoint key_compare (k l : list chunk) : comparison :=
  match k, l with
  | [], [] => Eq
  | [], _ :: _ => Lt
  | _ :: _, [] => Gt
  | a :: k', b :: l' =>
      match chunk_compare a b with
      | Eq => key_compare k' l'
      | c => c
      end
  end.

Definition natural_leb (s t : string) : bool :=
  match key_compare (natural_key s) (natural_key t) with
  | Gt => false
  | _ => true
  end.

Fixpoint natural_insert (x : string) (l : list string) : list string :=
  match l with
  | [] => [x]
  | y :: l' => if natural_leb x y then x :: y :: l' else y :: natural_insert x l'
  end.

Definition natural_sort (l : list string) : list string :=
  fold_right natural_insert [] l.

(** [l.index(x)]: the first position of [x]; [ValueError] is [None]. *)
Fixpoint index_of (l : list string) (x : string) : option nat :=
  match l with
  | [] => None
  | y :: l' => if String.eqb y x then Some 0 else option_map S (index_of l' x)
  end.

(** [enumerate(l)]. *)
Definition enumerate {X : Type} (l : list X) : list (nat * X) :=
  combine (seq 0 (length l)) l.

(** ** The vendor readers ([read_qca], [read_vicon]) *)

Section Readers.
Context {A : Type} `{Number A}.
Local Open Scope num_scope.

(** *** The Qualisys export

    The elements of a [.qca.txt] file that [read_qca] visits, with the
    attributes it reads; an attribute read through [float(...)] is the number
    it writes. *)
Record fov_video : Type := {
  fov_left : A; fov_right : A; fov_top : A; fov_bottom : A
}.

Record intrinsic : Type := {
  radialDistortion1 : A; radialDistortion2 : A;
  tangentalDistortion1 : A; tangentalDistortion2 : A;
  focalLengthU : A; focalLengthV : A;
  centerPointU : A; centerPointV : A
}.

Record transform : Type := {
  tr_x : A; tr_y : A; tr_z : A;
  r11 : A; r12 : A; r13 : A;
  r21 : A; r22 : A; r23 : A;
  r31 : A; r32 : A; r33 : A
}.

(** A [camera] element under [cameras], with its children of the three kinds
    in document order. *)
Record qca_camera : Type := {
  avg_residual : A;
  serial : string;
  model : option string;
  cam_fov_video : list fov_video;
  cam_intrinsic : list intrinsic;
  cam_transform : list transform
}.

(** [tag.attrib.get('model') in ('Miqus Video', 'Miqus Video UnderWater', 'none')]. *)
Definition is_video_model (m : option string) : bool :=
  match m with
  | Some s =>
      String.eqb s "Miqus Video" || String.eqb s "Miqus Video UnderWater"
      || String.eqb s "none"
  | None => false
  end.

(** [vid_id] of [read_qca]: the positions of the cameras of a video model. *)
Definition qca_vid_id (root : list qca_camera) : list nat :=
  map fst (filter (fun it => is_video_model (model (snd it))) (enumerate root)).

Definition qca_size (binning_factor : A) (tag : fov_video) : vec A :=
  [ (fov_right tag - fov_left tag + nlit 1) / binning_factor;
    (fov_bottom tag - fov_top tag + nlit 1) / binning_factor ].

Definition qca_distortion (binning_factor : A) (tag : intrinsic) : vec A :=
  [ radialDistortion1 tag / nlit 64 / binning_factor;
    radialDistortion2 tag / nlit 64 / binning_factor;
    tangentalDistortion1 tag / nlit 64 / binning_factor;
    tangentalDistortion2 tag / nlit 64 / binning_factor ].

Definition qca_matrix (binning_factor : A) (fov : fov_video) (tag : intrinsic) : mat A :=
  let fu := focalLengthU tag / nlit 64 / binning_factor in
  let fv := focalLengthV tag / nlit 64 / binning_factor in
  let cu := centerPointU tag / nlit 64 / binning_factor - fov_left fov in
  let cv := centerPointV tag / nlit 64 / binning_factor - fov_top fov in
  [ [fu; nlit 0; cu]; [nlit 0; fv; cv]; [nlit 0; nlit 0; nlit 1] ].

(** [np.array([r11, ..., r33]).reshape(3,3).T]. *)
Definition qca_rotation (tag : transform) : mat A :=
  [ [r11 tag; r21 tag; r31 tag];
    [r12 tag; r22 tag; r32 tag];
    [r13 tag; r23 tag; r33 tag] ].

Definition qca_translation (tag : transform) : vec A :=
  [ tr_x tag / nlit 1000; tr_y tag / nlit 1000; tr_z tag / nlit 1000 ].

(** What a reader returns, [ret, C, S, D, K, R, T]; the rotations are still
    3x3 matrices here. *)
Record vendor_calibration : Type := {
  vnd_ret : list A;
  vnd_C : list string;
  vnd_S : list (vec A);
  vnd_D : list (vec A);
  vnd_K : list (mat A);
  vnd_R : list (mat A);
  vnd_T : list (vec A)
}.

(** [read_qca(qca_path, binning_factor)] on the parsed file: [root] is the
    list [root.findall('cameras/camera')]. *)
Definition read_qca (root : list qca_camera) (binning_factor : A) : option vendor_calibration :=
  let ret := map avg_residual root in
  let C := map serial root in
  let vid_id := qca_vid_id root in
  let fovs := flat_map cam_fov_video root in
  let S := map (qca_size binning_factor) fovs in
  let intr := flat_map cam_intrinsic root in
  let D := map (qca_distortion binning_factor) intr in
  K <- mapM (fun it => fov <- nth_error fovs (fst it) ;;
                       Some (qca_matrix binning_factor fov (snd it)))
            (enumerate intr) ;;
  let trs := flat_map cam_transform root in
  let R := map qca_rotation trs in
  let T := map qca_translation trs in
  C_vid <- getitems C vid_id ;;
  C_vid_id <- mapM (index_of C_vid) (natural_sort C_vid) ;;
  C_id <- getitems vid_id C_vid_id ;;
  C' <- getitems C C_id ;;
  ret' <- getitems ret C_id ;;
  S' <- getitems S C_id ;;
  D' <- getitems D C_id ;;
  K' <- getitems K C_id ;;
  R' <- getitems R C_id ;;
  T' <- getitems T C_id ;;
  Some {| vnd_ret := ret'; vnd_C := C'; vnd_S := S'; vnd_D := D';
          vnd_K := K'; vnd_R := R'; vnd_T := T' |}.

(** *** The Vicon export

    A [KeyFrame] element and a [Camera] element of an [.xcp] file with the
    attributes [read_vicon] reads.  An attribute that is split into numbers
    is the list of its numbers; [VICON_RADIAL2] and [VICON_RADIAL] may be
    absent.  [vc_model] is the attribute the commented-out line 282 would
    test; [read_vicon] never reads it. *)
Record keyframe : Type := {
  WORLD_ERROR : A;
  VICON_RADIAL2 : option (list A);
  VICON_RADIAL : option (list A);
  FOCAL_LENGTH : A;
  PRINCIPAL_POINT : list A;
  ORIENTATION : list A;
  POSITION : list A
}.

Record vicon_camera : Type := {
  DEVICEID : string;
  vc_model : option string;
  SENSOR_SIZE : list A;
  PIXEL_ASPECT_RATIO : A;
  KeyFrames : list keyframe
}.

(** [quat2mat] of [Pose2Sim.common] is not under src/: taken as it comes. *)
Variable quat2mat : list A -> nat -> option (mat A).

(** [cam_elem.findall('KeyFrames/KeyFrame')[0]]. *)
Definition first_keyframe (cam : vicon_camera) : option keyframe :=
  nth_error (KeyFrames cam) 0.

(** The [try]/[except] of lines 287-290, then line 291. *)
Definition vicon_distortion (cam : vicon_camera) : option (vec A) :=
  dist <- match obind (first_keyframe cam) VICON_RADIAL2 with
          | Some l => Some (firstn 2 (skipn 3 l))
          | None => obind (first_keyframe cam) VICON_RADIAL
          end ;;
  Some (dist ++ [nlit 0; nlit 0])%list.

Definition vicon_matrix (cam : vicon_camera) : option (mat A) :=
  kf <- first_keyframe cam ;;
  let fu := FOCAL_LENGTH kf in
  let fv := fu / PIXEL_ASPECT_RATIO cam in
  match PRINCIPAL_POINT kf with
  | [cu; cv] => Some [ [fu; nlit 0; cu]; [nlit 0; fv; cv]; [nlit 0; nlit 0; nlit 1] ]
  | _ => None
  end.

Definition vicon_rotation (cam : vicon_camera) : option (mat A) :=
  kf <- first_keyframe cam ;; quat2mat (ORIENTATION kf) 3.

Definition vicon_translation (cam : vicon_camera) : option (vec A) :=
  kf <- first_keyframe cam ;; Some (map (fun t => t / nlit 1000) (POSITION kf)).

(** [read_vicon(vicon_path)] on the parsed file: [root] is the list
    [root.findall('Camera')].  Line 283 puts every position into [vid_id];
    lines 313-318 reorder [C], [S], [D], [K], [R], [T] and leave [ret]. *)
Definition read_vicon (root : list vicon_camera) : option vendor_calibration :=
  let C := map DEVICEID root in
  let S := map SENSOR_SIZE root in
  ret <- mapM (fun cam => kf <- first_keyframe cam ;; Some (WORLD_ERROR kf)) root ;;
  let vid_id := map fst (enumerate root) in
  D <- mapM vicon_distortion root ;;
  K <- mapM vicon_matrix root ;;
  R <- mapM vicon_rotation root ;;
  T <- mapM vicon_translation root ;;
  C_vid <- getitems C vid_id ;;
  C_vid_id <- mapM (index_of C_vid) (natural_sort C_vid) ;;
  C_id <- getitems vid_id C_vid_id ;;
  C' <- getitems C C_id ;;
  S' <- getitems S C_id ;;
  D' <- getitems D C_id ;;
  K' <- getitems K C_id ;;
  R' <- getitems R C_id ;;
  T' <- getitems T C_id ;;
  Some {| vnd_ret := ret; vnd_C := C'; vnd_S := S'; vnd_D := D';
          vnd_K := K'; vnd_R := R'; vnd_T := T' |}.

End Readers.

(** ** Board calibration ([calibrate_intrinsics], [calibrate_extrinsics]) *)

(** The exceptions a run can end with. *)
Inductive exn : Type :=
| Exception (msg : string)      (* [raise Exception(msg)] *)
| ValueError (msg : string)     (* [raise ValueError(msg)] *)
| NameError (name : string)     (* a variable read before any assignment *)
| IndexError                    (* a list subscript out of range *)
| LibraryError.                 (* raised inside OpenCV, numpy or toml *)

(** A run of a logging function: the lines it logged, in order, and how it
    ended. *)
Definition run (X : Type) : Type := (list string * (exn + X))%type.

Definition ret_run {X : Type} (x : X) : run X := ([], inr x).

Definition raise {X : Type} (e : exn) : run X := ([], inl e).

(** [logging.info(msg)] and [logging.exception(msg)]: a line in the log. *)
Definition log (msg : string) : run unit := ([msg], inr tt).

Definition bind_run {X Y : Type} (r : run X) (k : X -> run Y) : run Y :=
  match r with
  | (l, inl e) => (l, inl e)
  | (l, inr x) => let '(l', y) := k x in ((l ++ l')%list, y)
  end.

(** A library call that raises ends the run. *)
Definition lift_lib {X : Type} (o : option X) : run X :=
  match o with
  | Some x => ret_run x
  | None => raise LibraryError
  end.

Definition lift_index {X : Type} (o : option X) : run X :=
  match o with
  | Some x => ret_run x
  | None => raise IndexError
  end.

Declare Scope run_scope.
Delimit Scope run_scope with run.
Notation "x <~ e ;; k" := (bind_run e (fun x => k))
  (at level 61, e at next level, right associativity) : run_scope.
Notation "' p <~ e ;; k" := (bind_run e (fun x => match x with p => k end))
  (at level 61, p pattern, e at next level, right associativity) : run_scope.
Notation "e ;;; k" := (bind_run e (fun _ => k))
  (at level 61, right associativity) : run_scope.

Section Board.
Context {A : Type} `{Number A}.
Local Open Scope num_scope.

(** A list of points: image points have two coordinates, object points
    three.  (OpenCV keeps image points in an array of shape (n,1,2); the axis
    of length one is left out.) *)
Definition points : Type := list (vec A).

(** Everything the calibration reads from outside: the file system, OpenCV
    and the point-and-click window. *)
Record world : Type := {
  (* [next(os.walk(path))[1]]: the sub-directories of [path];
     [None] when [os.walk] yields nothing ([StopIteration]) *)
  walk_dirs : string -> option (list string);
  (* [glob.glob(pattern)] *)
  glob : string -> list string;
  (* [sorted(files, key=lambda c: [int(n) for n in re.findall(r'\d+', c)])] *)
  sorted_by_numbers : list string -> list string;
  (* lines 429-433 run to their end: the file is a video and
     [extract_frames] returned *)
  frames_extracted : string -> bool;
  (* [glob.glob(pattern)] once the frames are on disk *)
  glob_frames : string -> list string;
  (* [findCorners(img_path, corner_nb, objp, show)]: the confirmed image
     points, with the confirmed object points when [objp] was given;
     [None] when there is none (an empty list, not an array) *)
  findCorners : string -> nat * nat -> points -> bool -> option (points * points);
  (* [imgp_objp_visualizer_clicker(img, imgp=[], objp, img_path)] *)
  clicker : string -> points -> option (points * points);
  (* [cv2.imread(path).shape]: height and width *)
  image_shape : string -> option (nat * nat);
  (* [cv2.calibrateCamera]: [ret_cam], [mtx], [dist] *)
  calibrateCamera : list points -> list points -> nat * nat -> option (A * mat A * mat A);
  (* [cv2.solvePnP]: [r] and [t], flattened *)
  solvePnP : points -> points -> mat A -> vec A -> option (vec A * vec A);
  (* [cv2.Rodrigues(r)[0]] *)
  cv_Rodrigues : vec A -> option (mat A);
  (* lines 542-557: the picture of the clicked and the reprojected points;
     [None] when drawing raises *)
  draw_overlay : string -> list (A * A) -> list (vec A) -> option unit;
  (* [toml.load(path)] *)
  toml_load : string -> option (toml_doc A)
}.

Variable w : world.

Record intrinsics_config : Type := {
  overwrite_intrinsics : bool;
  intrinsics_extension : string;
  show_detection_intrinsics : bool;
  intrinsics_corners_nb : nat * nat;
  intrinsics_square_size : A
}.

Record extrinsics_config : Type := {
  calculate_extrinsics : bool;
  extrinsics_extension : string;
  extrinsics_board_type : string;
  extrinsics_corners_nb : nat * nat;
  extrinsics_square_size : A;
  object_coords_3d : points;
  show_reprojection_error : bool
}.

(** The object points of a board (lines 414-416 and 516-518): the corner
    [(i, j)] of the grid at [(i * square, j * square, 0)], [i] running
    fastest. *)
Definition board_points (nb : nat * nat) (square : A) : points :=
  flat_map (fun j =>
    map (fun i => [ nlit (Z.of_nat i) * square; nlit (Z.of_nat j) * square; nlit 0 ])
        (seq 0 (fst nb)))
    (seq 0 (snd nb)).

(** [os.path.join(calib_dir, stage, cam)]. *)
Definition cam_folder (calib_dir stage cam : string) : string :=
  path_join (path_join calib_dir stage) cam.

Definition camera_msg (cam : string) : string :=
  String (ascii_of_nat 10) "Camera " ++ cam ++ ":".

Definition no_folder_msg (path : string) : string :=
  "Error: No " ++ path ++ " folder found.".

Definition no_files_msg (folder ext : string) : string :=
  "The folder " ++ folder
  ++ " does not exist or does not contain any files with extension ." ++ ext ++ ".".

Definition few_images_msg (n : nat) (cam : string) : string :=
  "Corners were detected only on " ++ str_of_nat n ++ " images for camera " ++ cam
  ++ ". Calibration of intrinsic parameters may not be accurate with fewer than 10 good images of the board.".

(** The loop of lines 440-451 over the images of one camera: [imgpoints] and
    [objpoints], and the last [img_path]. *)
Fixpoint find_all_corners (cfg : intrinsics_config) (objp : points)
    (files : list string) (imgpoints objpoints : list points)
    (img_path : option string) : list points * list points * option string :=
  match files with
  | [] => (imgpoints, objpoints, img_path)
  | f :: rest =>
      let show := show_detection_intrinsics cfg in
      let '(ip, op) :=
        match findCorners w f (intrinsics_corners_nb cfg) objp show with
        | Some (imgp_confirmed, objp_confirmed) =>
            ((imgpoints ++ [imgp_confirmed])%list,
             (objpoints ++ [if show then objp_confirmed else objp])%list)
        | None => (imgpoints, objpoints)
        end in
      find_all_corners cfg objp rest ip op (Some f)
  end.

(** Lines 425-437: the files of a camera folder sorted, and replaced by the
    extracted frames when the first one is a video. *)
Definition intrinsics_image_files (folder : string) (globbed : list string) : list string :=
  let sorted := sorted_by_numbers w globbed in
  match sorted with
  | f0 :: _ =>
      if frames_extracted w f0
      then sorted_by_numbers w (glob_frames w (path_join folder "*.png"))
      else sorted
  | [] => sorted
  end.

(** One turn of the loop of [calibrate_intrinsics] (lines 413-466), for the
    camera folder [cam] at position [i].  [img_path0] is the value the
    variable [img_path] holds when the turn starts ([None]: not yet
    assigned); the turn returns the value it leaves. *)
Definition intrinsics_cam (calib_dir : string) (cfg : intrinsics_config)
    (img_path0 : option string) (i : nat) (cam : string)
    : run (option string * (A * string * vec A * vec A * mat A)) :=
  (let objp := board_points (intrinsics_corners_nb cfg) (intrinsics_square_size cfg) in
   let folder := cam_folder calib_dir "intrinsics" cam in
   let ext := intrinsics_extension cfg in
   log (camera_msg cam) ;;;
   match glob w (path_join folder ("*." ++ ext)) with
   | [] =>
       log (no_files_msg folder ext) ;;;
       raise (ValueError (no_files_msg folder ext))
   | f :: fs =>
       let img_vid_files := intrinsics_image_files folder (f :: fs) in
       let '(imgpoints, objpoints, img_path) :=
         find_all_corners cfg objp img_vid_files [] [] img_path0 in
       (if Nat.ltb (length imgpoints) 10
        then log (few_images_msg (length imgpoints) cam)
        else ret_run tt) ;;;
       p <~ match img_path with
            | Some p => ret_run p
            | None => raise (NameError "img_path")
            end ;;
       '(h, wd) <~ lift_lib (image_shape w p) ;;
       '(ret_cam, mtx, dist) <~ lift_lib (calibrateCamera w objpoints imgpoints (wd, h)) ;;
       d0 <~ lift_index (nth_error dist 0) ;;
       ret_run (Some p,
                (ret_cam, "cam_" ++ fmt_02d (i + 1),
                 [nlit (Z.of_nat wd); nlit (Z.of_nat h)], d0, mtx))
   end)%run.

Definition empty_calibration : calibration (A := A) :=
  {| cal_ret := []; cal_C := []; cal_S := []; cal_D := [];
     cal_K := []; cal_R := []; cal_T := [] |}.

(** The loop of [calibrate_intrinsics] over the camera folders: the lists
    appended to, and the value [img_path] is left with. *)
Fixpoint intrinsics_loop (calib_dir : string) (cfg : intrinsics_config)
    (cams : list (nat * string)) (img_path : option string)
    (acc : calibration (A := A)) : run (option string * calibration (A := A)) :=
  match cams with
  | [] => ret_run (img_path, acc)
  | (i, cam) :: rest =>
      ('(img_path', (ret_cam, name, size, d, k)) <~
          intrinsics_cam calib_dir cfg img_path i cam ;;
       intrinsics_loop calib_dir cfg rest img_path'
         {| cal_ret := cal_ret acc ++ [ret_cam];
            cal_C := cal_C acc ++ [name];
            cal_S := cal_S acc ++ [size];
            cal_D := cal_D acc ++ [d];
            cal_K := cal_K acc ++ [k];
            cal_R := cal_R acc ++ [[nlit 0; nlit 0; nlit 0]];
            cal_T := cal_T acc ++ [[nlit 0; nlit 0; nlit 0]] |}%list)%run
  end.

(** [calibrate_intrinsics(calib_dir, intrinsics_config_dict)]. *)
Definition calibrate_intrinsics (calib_dir : string) (cfg : intrinsics_config)
    : run (calibration (A := A)) :=
  let path := path_join calib_dir "intrinsics" in
  match walk_dirs w path with
  | None =>
      (log (no_folder_msg path) ;;; raise (Exception (no_folder_msg path)))%run
  | Some intrinsics_cam_listdirs_names =>
      (r <~ intrinsics_loop calib_dir cfg (enumerate intrinsics_cam_listdirs_names)
              None empty_calibration ;;
       ret_run (snd r))%run
  end.

(** Modelled from the spec: [euclidean_distance] of [Pose2Sim.common], which
    line 560 calls, is not under src/.  The spec's residual is the "distance
    between an observed and a reprojected point": the square root of the sum
    of the squared differences of the coordinates of two points with as many
    coordinates. *)
Fixpoint squared_differences (q1 q2 : vec A) : option (list A) :=
  match q1, q2 with
  | [], [] => Some []
  | a :: q1', b :: q2' =>
      rest <- squared_differences q1' q2' ;; Some ((b - a) * (b - a) :: rest)
  | _, _ => None
  end.

Definition euclidean_distance (q1 q2 : vec A) : option A :=
  sq <- squared_differences q1 q2 ;; Some (nsqrt (nsum sq)).

(** Line 538: the object points projected through [P_cam]. *)
Definition project_points (P_cam : mat A) (objp : points) : option (list (A * A)) :=
  mapM (fun o => reproject_cam P_cam (o ++ [nlit 1])%list) objp.

(** Line 560: [[euclidean_distance(proj_obj[n], imgp[n]) for n in
    range(len(proj_obj))]]. *)
Definition imgp_to_objreproj_dist (proj_obj : list (A * A)) (imgp : points) : option (list A) :=
  mapM (fun n =>
          p <- nth_error proj_obj n ;;
          q <- nth_error imgp n ;;
          euclidean_distance [fst p; snd p] q)
       (seq 0 (length proj_obj)).

(** Line 561: [rms_px = np.sqrt(np.sum([d**2 for d in imgp_to_objreproj_dist]))]. *)
Definition rms_px_of (dists : list A) : A :=
  nsqrt (nsum (map (fun d => d * d) dists)).

Definition no_corners_msg : string :=
  "No corners found. Set " ++ String (ascii_of_nat 34) "show_detection_extrinsics"
  ++ String (ascii_of_nat 34) " to true to click corners by hand, or change extrinsic_board_type to "
  ++ String (ascii_of_nat 34) "scene" ++ String (ascii_of_nat 34) "".

Definition no_points_msg : string :=
  "No points clicked (or fewer than 6). Press 'C' when the image is displayed, and then click on the image points corresponding to the 'object_coords_3d' you measured and wrote down in the Config.toml file.".

Definition few_points_msg (n : nat) (cam : string) : string :=
  "Only " ++ str_of_nat n ++ " reference points for camera " ++ cam
  ++ ". Calibration of extrinsic parameters may not be accurate with fewer than 10 reference points, as spread out as possible.".

(** Lines 511-526: the correspondences of one camera; [None] when the board
    type is neither of the two, which leaves [imgp] and [objp] unassigned. *)
Definition correspondences (cfg : extrinsics_config) (cam f0 : string)
    : run (option (points * points)) :=
  (if String.eqb (extrinsics_board_type cfg) "checkerboard" then
     match findCorners w f0 (extrinsics_corners_nb cfg) [] (show_reprojection_error cfg) with
     | None => log no_corners_msg ;;; raise (ValueError no_corners_msg)
     | Some (imgp, _) =>
         ret_run (Some (imgp, board_points (extrinsics_corners_nb cfg)
                                           (extrinsics_square_size cfg)))
     end
   else if String.eqb (extrinsics_board_type cfg) "scene" then
     match clicker w f0 (object_coords_3d cfg) with
     | None => log no_points_msg ;;; raise (ValueError no_points_msg)
     | Some (imgp, objp) =>
         (if Nat.ltb (length objp) 10
          then log (few_points_msg (length objp) cam)
          else ret_run tt) ;;;
         ret_run (Some (imgp, objp))
     end
   else ret_run None)%run.

(** One turn of the loop of [calibrate_extrinsics] (lines 499-564): the
    error, rotation and translation of the camera folder [cam] at position
    [i]. *)
Definition extrinsics_cam (calib_dir : string) (cfg : extrinsics_config)
    (K : list (mat A)) (D : list (vec A)) (i : nat) (cam : string)
    : run (A * vec A * vec A) :=
  (let folder := cam_folder calib_dir "extrinsics" cam in
   let ext := extrinsics_extension cfg in
   log (camera_msg cam) ;;;
   match glob w (path_join folder ("*." ++ ext)) with
   | [] =>
       log (no_files_msg folder ext) ;;;
       raise (ValueError (no_files_msg folder ext))
   | f :: fs =>
       f0 <~ lift_index (nth_error (sorted_by_numbers w (f :: fs)) 0) ;;
       lift_lib (image_shape w f0) ;;;
       found <~ correspondences cfg cam f0 ;;
       mtx <~ lift_index (nth_error K i) ;;
       dist <~ lift_index (nth_error D i) ;;
       '(imgp, objp) <~ match found with
                        | Some io => ret_run io
                        | None => raise (NameError "objp")
                        end ;;
       '(r, t) <~ lift_lib (solvePnP w objp imgp mtx dist) ;;
       r_mat <~ lift_lib (cv_Rodrigues w r) ;;
       P_cam <~ lift_lib (projection_matrix mtx r_mat t) ;;
       proj_obj <~ lift_lib (project_points P_cam objp) ;;
       (if show_reprojection_error cfg
        then lift_lib (draw_overlay w f0 proj_obj imgp)
        else ret_run tt) ;;;
       dists <~ lift_lib (imgp_to_objreproj_dist proj_obj imgp) ;;
       ret_run (rms_px_of dists, r, t)
   end)%run.

Fixpoint extrinsics_loop (calib_dir : string) (cfg : extrinsics_config)
    (K : list (mat A)) (D : list (vec A)) (cams : list (nat * string))
    (ret : list A) (R T : list (vec A)) : run (list A * list (vec A) * list (vec A)) :=
  match cams with
  | [] => ret_run (ret, R, T)
  | (i, cam) :: rest =>
      ('(rms_px, r, t) <~ extrinsics_cam calib_dir cfg K D i cam ;;
       extrinsics_loop calib_dir cfg K D rest
         (ret ++ [rms_px])%list (R ++ [r])%list (T ++ [t])%list)%run
  end.

(** [calibrate_extrinsics(calib_dir, extrinsics_config_dict, C, S, K, D)]. *)
Definition calibrate_extrinsics (calib_dir : string) (cfg : extrinsics_config)
    (C : list string) (S : list (vec A)) (K : list (mat A)) (D : list (vec A))
    : run (calibration (A := A)) :=
  let path := path_join calib_dir "extrinsics" in
  match walk_dirs w path with
  | None =>
      (log (no_folder_msg path) ;;; raise (Exception (no_folder_msg path)))%run
  | Some extrinsics_cam_listdirs_names =>
      ('(ret, R, T) <~ extrinsics_loop calib_dir cfg K D
                         (enumerate extrinsics_cam_listdirs_names) [] [] [] ;;
       ret_run {| cal_ret := ret; cal_C := C; cal_S := S; cal_D := D;
                  cal_K := K; cal_R := R; cal_T := T |})%run
  end.

Definition calculating_intrinsics_msg : string :=
  String (ascii_of_nat 10) "Calculating intrinsic parameters...".

Definition calculating_extrinsics_msg : string :=
  String (ascii_of_nat 10) "Calculating extrinsic parameters...".

(** [calib_board_fun(calib_dir, intrinsics_config_dict, extrinsics_config_dict)]. *)
Definition calib_board_fun (calib_dir : string) (icfg : intrinsics_config)
    (ecfg : extrinsics_config) : run (calibration (A := A)) :=
  (cal <~ match glob w (path_join calib_dir "Calib*.toml") with
          | calib_file :: _ =>
              if overwrite_intrinsics icfg then
                log calculating_intrinsics_msg ;;;
                calibrate_intrinsics calib_dir icfg
              else
                log (String (ascii_of_nat 10) "Preexisting calibration file found: '"
                     ++ calib_file ++ "'.") ;;;
                log (String (ascii_of_nat 10) "Retrieving intrinsic parameters from file. Set "
                     ++ String (ascii_of_nat 34) "overwrite_intrinsics"
                     ++ String (ascii_of_nat 34) " to true in Config.toml to overwrite.") ;;;
                calib_data <~ lift_lib (toml_load w calib_file) ;;
                lift_lib (retrieve_intrinsics calib_data)
          | [] =>
              log calculating_intrinsics_msg ;;;
              calibrate_intrinsics calib_dir icfg
          end ;;
   if calculate_extrinsics ecfg then
     log calculating_extrinsics_msg ;;;
     calibrate_extrinsics calib_dir ecfg (cal_C cal) (cal_S cal) (cal_K cal) (cal_D cal)
   else
     log (String (ascii_of_nat 10) "Extrinsic parameters won't be calculated. Set "
          ++ String (ascii_of_nat 34) "calculate_extrinsics"
          ++ String (ascii_of_nat 34) " to true in Config.toml to calculate them.") ;;;
     ret_run cal)%run.

End Board.

(** ** Frame extraction ([extract_frames]) *)

(** A Python number of the configuration file: an [int] or a [float]. *)
Inductive pynum : Type :=
| PyInt (z : Z)
| PyFloat (f : float).

(** [a * b] for an [int] [a]: an [int] times an [int] is an [int], an [int]
    times a [float] is the product of the two as floats.  [float_of_Z] is
    Python's conversion for an [int] below 2^63 in size, which a frame rate
    is. *)
Definition py_mul_int (a : Z) (b : pynum) : pynum :=
  match b with
  | PyInt z => PyInt (a * z)
  | PyFloat f => PyFloat (float_of_Z a * f)%float
  end.

(** Whether the integer [k] is a multiple of the float [f].  The float
    remainder [math.fmod] is exact, so [k % f] is zero exactly when [k] is a
    whole number of times [f] = m * 2^e; the remainder by an infinite [f] is
    [k] itself, and a remainder by nan is nan, which equals nothing.  [k] is
    a frame number: below 2^53, where its conversion to a float is exact. *)
Definition float_multiple (k : Z) (f : float) : bool :=
  match Prim2SF f with
  | S754_finite _ m e =>
      if (0 <=? e)%Z then (k mod (Zpos m * 2 ^ e) =? 0)%Z
      else ((k * 2 ^ (- e)) mod Zpos m =? 0)%Z
  | S754_infinity _ => (k =? 0)%Z
  | _ => false
  end.

(** [k % p == 0] for an [int] [k]; [None] is [ZeroDivisionError]. *)
Definition py_mod_is_zero (k : Z) (p : pynum) : option bool :=
  match p with
  | PyInt z => if (z =? 0)%Z then None else Some (k mod z =? 0)%Z
  | PyFloat f => if is_zero f then None else Some (float_multiple k f)
  end.

(** [s.zfill(width)] on a string without a sign. *)
Definition zfill (width : nat) (s : string) : string :=
  string_of_list_ascii (repeat "0"%char (width - String.length s)) ++ s.

(** The path of the picture of frame [frame_nb]:
    [root + '_' + str(frame_nb).zfill(5) + '.png']. *)
Definition frame_path (root : string) (frame_nb : nat) : string :=
  root ++ "_" ++ zfill 5 (str_of_nat frame_nb) ++ ".png".

(** How a call ends. *)
Inductive ending : Type :=
| Returned
| ZeroDivisionError.

Section Extraction.
(** The pictures of a video. *)
Variable F : Type.

(** What [cv2.VideoCapture(video_path)] gives: whether the file opened,
    [round(cap.get(cv2.CAP_PROP_FPS))], the frame rate it reports rounded to
    an integer, and the frames [cap.read()] hands out one after the other
    until it returns [False]. *)
Record video : Type := {
  isOpened : bool;
  CAP_PROP_FPS : Z;
  video_frames : list F
}.

(** The [while] loop (lines 953-961): the files written with [cv2.imwrite],
    in order; [cv2.imwrite] is taken to write the file it is given. *)
Fixpoint extract_loop (root : string) (period : pynum) (frame_nb : nat)
    (frames : list F) (written : list (string * F)) : list (string * F) * ending :=
  match frames with
  | [] => (written, Returned)
  | frame :: rest =>
      match py_mod_is_zero (Z.of_nat frame_nb) period with
      | None => (written, ZeroDivisionError)
      | Some true =>
          extract_loop root period (S frame_nb) rest
            (written ++ [(frame_path root frame_nb, frame)])%list
      | Some false => extract_loop root period (S frame_nb) rest written
      end
  end.

(** What a call leaves: the lines logged, the files written and how it
    ended. *)
Record extraction : Type := {
  ext_log : list string;
  ext_written : list (string * F);
  ext_end : ending
}.

Definition nothing_extracted : extraction :=
  {| ext_log := []; ext_written := []; ext_end := Returned |}.

(** [extract_frames(video_path, extract_every_N_sec, overwrite_extraction)]:
    [path_exists] is [os.path.exists], [cap] the capture of the video and
    [root] is [os.path.splitext(video_path)[0]]. *)
Definition extract_frames (path_exists : string -> bool) (cap : video) (root : string)
    (extract_every_N_sec : pynum) (overwrite_extraction : bool) : extraction :=
  if negb (path_exists (root ++ "_00000.png")) || overwrite_extraction then
    if isOpened cap then
      let fps := CAP_PROP_FPS cap in
      let '(written, e) :=
        extract_loop root (py_mul_int fps extract_every_N_sec) 0 (video_frames cap) [] in
      {| ext_log := ["Extracting frames..."]; ext_written := written; ext_end := e |}
    else nothing_extracted
  else nothing_extracted.

(** [os.path.exists] once the files [written] are on disk. *)
Definition exists_after (path_exists : string -> bool) (written : list (string * F))
    (p : string) : bool :=
  path_exists p || existsb (String.eqb p) (map fst written).

End Extraction.


(** ** The order of the image files (lines 425, 435 and 506)

    [sorted(img_vid_files, key=lambda c: [int(n) for n in re.findall(r'\d+', c)])],
    on paths whose digits are the ten of ASCII. *)

(** [[int(n) for n in re.findall(r'\d+', c)]]: the numbers the maximal runs
    of decimal digits of [c] write, from left to right.  [cur] is the run
    being read. *)
Fixpoint numbers_from (s : list ascii) (cur : option N) : list N :=
  match s with
  | [] => match cur with Some n => [n] | None => [] end
  | c :: s' =>
      match digit_of c, cur with
      | Some d, Some n => numbers_from s' (Some (10 * n + d)%N)
      | Some d, None => numbers_from s' (Some d)
      | None, Some n => n :: numbers_from s' None
      | None, None => numbers_from s' None
      end
  end.

Definition numbers_key (c : string) : list N :=
  numbers_from (list_ascii_of_string c) None.

(** Python's order on lists of integers: the first difference decides, and a
    list is smaller than the lists it starts. *)
Fixpoint numbers_compare (k l : list N) : comparison :=
  match k, l with
  | [], [] => Eq
  | [], _ :: _ => Lt
  | _ :: _, [] => Gt
  | a :: k', b :: l' =>
      match N.compare a b with
      | Eq => numbers_compare k' l'
      | c => c
      end
  end.

Definition numbers_leb (a b : string) : bool :=
  match numbers_compare (numbers_key a) (numbers_key b) with
  | Gt => false
  | _ => true
  end.

(** [sorted] is stable: a file goes before the first one that is not smaller
    than it. *)
Fixpoint insert_by_numbers (x : string) (l : list string) : list string :=
  match l with
  | [] => [x]
  | y :: l' => if numbers_leb x y then x :: y :: l' else y :: insert_by_numbers x l'
  end.

Definition sort_by_numbers (l : list string) : list string :=
  fold_right insert_by_numbers [] l.


(** ** The trajectory file ([df_from_trc]) and its table *)

(** [l[::3]]: every third entry, the first one included. *)
Fixpoint every_third {Y : Type} (l : list Y) : list Y :=
  match l with
  | [] => []
  | x :: rest =>
      x :: match rest with
           | _ :: _ :: rest' => every_third rest'
           | _ => []
           end
  end.

(** [labels = df_lab.columns.tolist()[2:-1:3]] (line 155): of the cells of
    the header row, the last one left out, every third from the third on.
    [header_row] is [df_lab.columns.tolist()], the row as [read_csv] names
    its cells. *)
Definition trc_labels (header_row : list string) : list string :=
  every_third (skipn 2 (removelast header_row)).

(** Lines 156-157: the names given to the columns of the data. *)
Definition labels_XYZ (labels : list string) : list string :=
  flat_map (fun l => [l ++ "_X"; l ++ "_Y"; l ++ "_Z"]) labels.

Definition labels_FTXYZ (labels : list string) : list string :=
  "Frame#" :: "Time" :: labels_XYZ labels.

(** [d[:-2]]: a string without its last two characters. *)
Definition drop_last2 (d : string) : string :=
  string_of_list_ascii
    (firstn (length (list_ascii_of_string d) - 2) (list_ascii_of_string d)).

Section TrcTable.
Variable X : Type.

(** Line 228 of [reproj_from_trc_calib_func]:
    [pd.concat([data_trc.iloc[:,:2], yup2zup(data_trc.iloc[:,2:])], axis=1)]. *)
Definition data_trc_zup (data_trc : table X) : option (table X) :=
  zup <- yup2zup (skipn 2 data_trc) ;; Some (firstn 2 data_trc ++ zup)%list.

(** Line 229: [bodyparts = [d[:-2] for d in data_trc_zup.columns[2::3]]]. *)
Definition bodyparts (zup : table X) : list string :=
  map drop_last2 (every_third (skipn 2 (columns zup))).

End TrcTable.

(** ** The arguments of [reproj_from_trc_calib_func] (lines 203-224) *)

(** What the function is called with: a string, [None], or the dictionary
    [vars(parser.parse_args())] of names with a string or [None] each. *)
Inductive argument : Type :=
| ArgStr (s : string)
| ArgNone
| ArgDict (d : list (string * option string)).

(** The exceptions the argument handling lets through. *)
Inductive argument_error : Type :=
| ArgIndexError         (* [args[i]] past the end *)
| ArgAttributeError.    (* [.replace] on something that is no string *)

(** [s.startswith(p)]. *)
Fixpoint starts_with (p s : string) : bool :=
  match p, s with
  | "", _ => true
  | String a p', String b s' => Ascii.eqb a b && starts_with p' s'
  | _, "" => false
  end.

(** [s.replace(old, new)] for a non-empty [old]: the occurrences of [old]
    are replaced from left to right, none overlapping the one before.
    [skip] counts the characters of an occurrence still to pass. *)
Fixpoint replace_from (old new s : string) (skip : nat) : string :=
  match s with
  | "" => ""
  | String c s' =>
      match skip with
      | S k => replace_from old new s' k
      | O =>
          if starts_with old s
          then new ++ replace_from old new s' (String.length old - 1)
          else String c (replace_from old new s' 0)
      end
  end.

Definition str_replace (old new s : string) : string := replace_from old new s 0.

(** What the rest of the function works with. *)
Record reproj_arguments : Type := {
  input_trc_file : argument;
  input_calib_file : argument;
  openpose_or_deeplabcut_format : argument;
  output_file_root : argument
}.

Definition of_option (o : option string) : argument :=
  match o with
  | Some s => ArgStr s
  | None => ArgNone
  end.

(** The [try] block: the call made with the dictionary of [argparse].
    [None] stands for any exception in it, all caught by the bare [except]. *)
Definition arguments_from_dict (args : list argument) : option reproj_arguments :=
  a0 <- nth_error args 0 ;;
  match a0 with
  | ArgDict d =>
      trc <- lookup "input_trc_file" d ;;
      calib <- lookup "input_calib_file" d ;;
      fmt <- lookup "openpose_or_deeplabcut_format" d ;;
      let fmt' := match fmt with
                  | None => ArgStr "deeplabcut"
                  | Some f => ArgStr f
                  end in
      root <- lookup "output_file_root" d ;;
      root' <- match root with
               | None =>
                   match trc with
                   | Some t => Some (ArgStr (str_replace ".trc" "_reproj" t))
                   | None => None
                   end
               | Some r => Some (ArgStr r)
               end ;;
      Some {| input_trc_file := of_option trc;
              input_calib_file := of_option calib;
              openpose_or_deeplabcut_format := fmt';
              output_file_root := root' |}
  | _ => None
  end.

(** The [except] block: the call made with positional arguments. *)
Definition arguments_from_positions (args : list argument)
    : argument_error + reproj_arguments :=
  match args with
  | trc :: calib :: rest =>
      let fmt := match rest with
                 | f :: _ => f
                 | [] => ArgStr "deeplabcut"
                 end in
      match rest with
      | _ :: root :: _ =>
          inr {| input_trc_file := trc; input_calib_file := calib;
                 openpose_or_deeplabcut_format := fmt; output_file_root := root |}
      | _ =>
          match trc with
          | ArgStr t =>
              inr {| input_trc_file := trc; input_calib_file := calib;
                     openpose_or_deeplabcut_format := fmt;
                     output_file_root := ArgStr (str_replace ".trc" "_reproj" t) |}
          | _ => inl ArgAttributeError
          end
      end
  | _ => inl ArgIndexError
  end.

(** Lines 203-224: the [try] block, and the [except] block when it raises. *)
Definition reproj_arguments_of (args : list argument) : argument_error + reproj_arguments :=
  match arguments_from_dict args with
  | Some r => inr r
  | None => arguments_from_positions args
  end.

(** The call of the [__main__] block (lines 308-316): the dictionary of the
    parser, whose options are [--trc_input_file], [--calib_input_file],
    [--output_format] and [--output_file]. *)
Definition main_arguments (t c : string) (f o : option string) : list argument :=
  [ ArgDict [ ("trc_input_file", Some t); ("calib_input_file", Some c);
              ("output_format", f); ("output_file", o) ] ].

(** ** The reprojection of a trajectory (lines 254-262) *)

Section ReprojectRows.
Context {A : Type} `{Number A}.






End ReprojectRows.

(** ** Conversions and the whole run ([calib_qca_fun], [calib_vicon_fun],
       [recap_calibrate], [calibrate_cams_all]) *)

(** How a whole run ends: it returns, it raises an exception of the module's
    own, or an exception comes out of the named callee. *)
Inductive conclusion : Type :=
| Finished
| Raised (e : exn)
| RaisedBy (callee : string).

Section WholeRun.
Context {A : Type} `{Number A}.
Local Open Scope num_scope.

(** [RT_qca2cv(r, t)] and [rotate_cam(r, t, ang_x=np.pi, ang_y=0, ang_z=0)]
    of [Pose2Sim.common] are not under src/, and [cv2.Rodrigues] from a
    matrix to a vector and [np.around(x, decimals=3)] are library calls: all
    four are taken as they come. *)
Variable RT_qca2cv : mat A -> vec A -> option (mat A * vec A).
Variable rotate_cam_pi : mat A -> vec A -> option (mat A * vec A).
Variable Rodrigues_vector : mat A -> option (vec A).
Variable around3 : A -> A.
Variable quat2mat : list A -> nat -> option (mat A).

(** [RT = [f(r,t) for r, t in zip(R, T)]], [R = [rt[0] for rt in RT]],
    [T = [rt[1] for rt in RT]]. *)
Definition convert_RT (f : mat A -> vec A -> option (mat A * vec A))
    (R : list (mat A)) (T : list (vec A)) : option (list (mat A) * list (vec A)) :=
  RT <- mapM (fun rt => f (fst rt) (snd rt)) (combine R T) ;;
  Some (map fst RT, map snd RT).

(** [calib_qca_fun] after its log line, on the parsed file (lines 98-111). *)
Definition calib_qca_fun (root : list (qca_camera (A := A))) (binning_factor : A)
    : option (calibration (A := A)) :=
  cal <- read_qca root binning_factor ;;
  '(R1, T1) <- convert_RT RT_qca2cv (vnd_R cal) (vnd_T cal) ;;
  '(R2, T2) <- convert_RT rotate_cam_pi R1 T1 ;;
  R3 <- mapM Rodrigues_vector R2 ;;
  Some {| cal_ret := vnd_ret cal; cal_C := vnd_C cal; cal_S := vnd_S cal;
          cal_D := vnd_D cal; cal_K := vnd_K cal; cal_R := R3; cal_T := T2 |}.

(** [calib_vicon_fun] after its log line, on the parsed file (lines 243-252). *)
Definition calib_vicon_fun (root : list (vicon_camera (A := A)))
    : option (calibration (A := A)) :=
  cal <- read_vicon quat2mat root ;;
  '(R1, T1) <- convert_RT RT_qca2cv (vnd_R cal) (vnd_T cal) ;;
  R2 <- mapM Rodrigues_vector R1 ;;
  Some {| cal_ret := vnd_ret cal; cal_C := vnd_C cal; cal_S := vnd_S cal;
          cal_D := vnd_D cal; cal_K := vnd_K cal; cal_R := R2; cal_T := T1 |}.

(** The loop of [recap_calibrate] (lines 1007-1016) over the tables of the
    loaded file from position [c] on: the lists [ret_m] and [ret_px]. *)
Fixpoint recap_from (calib : toml_doc A) (c : nat) (ret : list A)
    (calib_full_type : string) : option (list A * list A) :=
  match calib with
  | [] => Some ([], [])
  | (cam, tbl) :: rest =>
      if String.eqb cam "metadata" then recap_from rest (S c) ret calib_full_type
      else
        matrix <- obind (lookup "matrix" tbl) as_mat ;;
        f_px <- idx2 matrix 0 0 ;;
        translation <- obind (lookup "translation" tbl) as_vec ;;
        Dm <- euclidean_distance translation [nlit 0; nlit 0; nlit 0] ;;
        if String.eqb calib_full_type "convert_qualisys"
           || String.eqb calib_full_type "convert_vicon" then
          r <- nth_error ret c ;;
          '(ret_m, ret_px) <- recap_from rest (S c) ret calib_full_type ;;
          Some (around3 r :: ret_m,
                around3 (r / (Dm * nlit 1000) * f_px) :: ret_px)
        else if String.eqb calib_full_type "calculate_board" then
          r <- nth_error ret c ;;
          '(ret_m, ret_px) <- recap_from rest (S c) ret calib_full_type ;;
          Some (around3 (r * Dm * nlit 1000 / f_px) :: ret_m,
                around3 r :: ret_px)
        else recap_from rest (S c) ret calib_full_type
  end.

(** [recap_calibrate(ret, calib_path, calib_full_type)] on the loaded file,
    whose tables come in the order of the file: the two lists its log line
    prints, [ret_px] and [ret_m]. *)
Definition recap_calibrate (ret : list A) (calib : toml_doc A) (calib_full_type : string)
    : option (list A * list A) :=
  '(ret_m, ret_px) <- recap_from calib 0 ret calib_full_type ;;
  Some (ret_px, ret_m).

(** The part of [Config.toml] that [calibrate_cams_all] reads, every key of
    it present. *)
Record config : Type := {
  project_dir : string;
  calib_folder_name : string;
  calibration_type : string;
  convert_from : string;
  binning_factor : A;
  calculate_method : string;
  intrinsics_board_type : string;
  board_intrinsics : intrinsics_config (A := A);
  board_extrinsics : extrinsics_config (A := A)
}.

(** What the run reads from outside besides the [world] of the board
    calibration: the working directory and the two vendor files parsed. *)
Variable w : world (A := A).
Variable getcwd : string.
Variable parse_qca : string -> option (list (qca_camera (A := A))).
Variable parse_vicon : string -> option (list (vicon_camera (A := A))).

(** The entry of [calib_mapping] that is called, with [args_calib_fun]. *)
Inductive calib_call : Type :=
| CallQca (file_to_convert_path : string) (binning : A)
| CallVicon (file_to_convert_path : string) (binning : A)
| CallBoard (calib_dir : string).

(** Lines 1043-1089: the output path, [calib_full_type] and the call that
    the configuration selects. *)
Definition select_calibration (cfg : config) (calib_dir : string)
    : run (string * string * calib_call) :=
  (if String.eqb (calibration_type cfg) "convert" then
     let convert_filetype := convert_from cfg in
     found <~
       (if String.eqb convert_filetype "qualisys" then
          ret_run (Some (".qca.txt", binning_factor cfg))
        else if String.eqb convert_filetype "optitrack" then
          log "See Readme.md to retrieve Optitrack calibration values." ;;;
          ret_run None
        else if String.eqb convert_filetype "vicon" then
          ret_run (Some (".xcp", nlit 1))
        else ret_run None) ;;
     '(convert_ext, binning) <~ match found with
                                | Some eb => ret_run eb
                                | None => raise (NameError "convert_ext")
                                end ;;
     file_to_convert_path <~
       lift_index (nth_error (glob w (path_join calib_dir ("*" ++ convert_ext ++ "*"))) 0) ;;
     let calib_output_path :=
       path_join calib_dir ("Calib_" ++ convert_filetype ++ ".toml") in
     let calib_full_type := "convert_" ++ convert_filetype in
     ret_run (calib_output_path, calib_full_type,
              if String.eqb convert_filetype "qualisys"
              then CallQca file_to_convert_path binning
              else CallVicon file_to_convert_path binning)
   else if String.eqb (calibration_type cfg) "calculate" then
     if String.eqb (calculate_method cfg) "board" then
       let calib_output_path :=
         path_join calib_dir
           ("Calib_int" ++ intrinsics_board_type cfg ++ "_ext"
            ++ extrinsics_board_type (board_extrinsics cfg) ++ ".toml") in
       ret_run (calib_output_path, "calculate_board", CallBoard calib_dir)
     else if String.eqb (calculate_method cfg) "points" then
       log "Calibration from wand or from keypoint detection not supported yet. See Readme.md if you want to contribute." ;;;
       raise (NameError "calib_full_type")
     else
       log "Wrong calculate_method in Config.toml" ;;;
       raise (NameError "calib_full_type")
   else
     log "Wrong calibration_type in Config.toml" ;;;
     raise (NameError "calib_full_type"))%run.

Definition converting_msg (file_to_convert_path : string) : string :=
  "Converting " ++ file_to_convert_path ++ " to .toml calibration file...".

(** The call of [calib_fun] with [args_calib_fun]: the lines logged and the lists returned,
    or how the call ended. *)
Definition call_calibration (cfg : config) (call : calib_call)
    : list string * (conclusion + calibration (A := A)) :=
  match call with
  | CallQca path binning =>
      ([converting_msg path],
       match obind (parse_qca path) (fun root => calib_qca_fun root binning) with
       | Some cal => inr cal
       | None => inl (RaisedBy "calib_qca_fun")
       end)
  | CallVicon path _ =>
      ([converting_msg path],
       match obind (parse_vicon path) calib_vicon_fun with
       | Some cal => inr cal
       | None => inl (RaisedBy "calib_vicon_fun")
       end)
  | CallBoard calib_dir =>
      match calib_board_fun w calib_dir (board_intrinsics cfg) (board_extrinsics cfg) with
      | (l, inl e) => (l, inl (Raised e))
      | (l, inr cal) => (l, inr cal)
      end
  end.

(** What a run of [calibrate_cams_all] leaves: the lines logged before the
    recap, the calibration file if one was opened for writing, the lists
    [ret_px] and [ret_m] of the recap, and how the run ended. *)
Record calibration_run : Type := {
  run_log : list string;
  run_file : option (string * toml_doc A);
  run_recap : option (list A * list A);
  run_end : conclusion
}.

(** [calibrate_cams_all(config)].  [recap_calibrate] loads the file that
    [toml_write] has just written, and [toml.load] is taken to give back the
    tables as they were written. *)
Definition calibrate_cams_all (cfg : config) : calibration_run :=
  let dir := if String.eqb (project_dir cfg) "" then getcwd else project_dir cfg in
  let calib_dir := path_join dir (calib_folder_name cfg) in
  match select_calibration cfg calib_dir with
  | (l, inl e) =>
      {| run_log := l; run_file := None; run_recap := None; run_end := Raised e |}
  | (l, inr (calib_output_path, calib_full_type, call)) =>
      match call_calibration cfg call with
      | (l', inl c) =>
          {| run_log := app l l'; run_file := None; run_recap := None; run_end := c |}
      | (l', inr cal) =>
          match write_calibration cal with
          | (doc, false) =>
              {| run_log := app l l'; run_file := Some (calib_output_path, doc);
                 run_recap := None; run_end := Raised IndexError |}
          | (doc, true) =>
              match recap_calibrate (cal_ret cal) doc calib_full_type with
              | None =>
                  {| run_log := app l l'; run_file := Some (calib_output_path, doc);
                     run_recap := None; run_end := RaisedBy "recap_calibrate" |}
              | Some recap =>
                  {| run_log := app l l'; run_file := Some (calib_output_path, doc);
                     run_recap := Some recap; run_end := Finished |}
              end
          end
      end
  end.

(** The settings [calibrate_cams_all] has a calibration for. *)
Definition supported (cfg : config) : bool :=
  (String.eqb (calibration_type cfg) "convert"
   && (String.eqb (convert_from cfg) "qualisys" || String.eqb (convert_from cfg) "vicon"))
  || (String.eqb (calibration_type cfg) "calculate"
      && String.eqb (calculate_method cfg) "board").

End WholeRun.

(** ** Predicates of the statements *)

Section StorePredicates.
Context {A : Type} `{Number A}.

(** The matrix [toml_write] prints from four numbers. *)
Definition pinned (k00 k02 k11 k12 : A) : mat A :=
  [ [k00; nlit 0; k02]; [nlit 0; k11; k12]; [nlit 0; nlit 0; nlit 1] ].

(** An intrinsic matrix of the data model, [(fx, 0, cx; 0, fy, cy; 0, 0, 1)]. *)
Definition camera_matrix (k : mat A) : Prop :=
  exists fx fy cx cy, k = pinned fx cx fy cy.




(** The blocks of a file that its readers take for cameras. *)
Definition camera_blocks (doc : toml_doc A) : toml_doc A :=
  filter (fun b => negb (String.eqb (fst b) "metadata")) doc.

(** What [computeP] reads from a file, camera by camera. *)
Definition camera_entries (doc : toml_doc A) : option (list (mat A * vec A * vec A)) :=
  mapM (fun b => camera_entry (snd b)) (camera_blocks doc).

(** The matrix of a block is the pinned form of [k]. *)
Definition matrix_pinned_from (k : mat A) (tbl : toml_table A) : Prop :=
  exists k00 k02 k11 k12,
    idx2 k 0 0 = Some k00 /\ idx2 k 0 2 = Some k02 /\
    idx2 k 1 1 = Some k11 /\ idx2 k 1 2 = Some k12 /\
    lookup "matrix" tbl
    = Some (TArr [ tvec [k00; nlit 0; k02]; tvec [nlit 0; k11; k12];
                   tvec [nlit 0; nlit 0; nlit 1] ]).


End StorePredicates.

Section ProjectionPredicates.
Context {A : Type} `{Number A}.

(** The identity rotation. *)
Definition identity3 : mat A :=
  [ [nlit 1; nlit 0; nlit 0]; [nlit 0; nlit 1; nlit 0]; [nlit 0; nlit 0; nlit 1] ].

(** The denominator [P_cam[2].dot(Q)] of a reprojection. *)
Definition denominator (P_cam : mat A) (Q : vec A) : option A :=
  r2 <- nth_error P_cam 2 ;; dot r2 Q.

End ProjectionPredicates.

Section BoardPredicates.
Context {A : Type} `{Number A}.
Local Open Scope num_scope.

(** The root mean square of the claim, in its words:
    [sqrt((1/n) * sum of squared distances)]. *)
Definition root_mean_square (dists : list A) : A :=
  nsqrt (nlit 1 / nlit (Z.of_nat (length dists)) * nsum (map (fun d => d * d) dists)).

End BoardPredicates.

Section ReaderPredicates.
Context {A : Type} `{Number A}.




(** Every list of a reader's result has [n] entries. *)
Definition vendor_lengths (n : nat) (cal : vendor_calibration (A := A)) : Prop :=
  length (vnd_ret cal) = n /\ length (vnd_C cal) = n /\ length (vnd_S cal) = n /\
  length (vnd_D cal) = n /\ length (vnd_K cal) = n /\ length (vnd_R cal) = n /\
  length (vnd_T cal) = n.

End ReaderPredicates.

(** ** Predicates of the further statements *)

(** [int(s)] on a string of decimal digits; [ValueError] is [None]. *)
Definition nat_of_str (s : string) : option nat :=
  option_map Nat.of_uint (NilEmpty.uint_of_string s).

(** A period [frame_nb % period] can be computed for and frame 0 is a
    multiple of: an [int] other than 0, a [float] other than 0.0 and nan. *)
Definition usable_period (p : pynum) : Prop :=
  match p with
  | PyInt z => z <> 0%Z
  | PyFloat f => is_zero f = false /\ is_nan f = false
  end.

(** A number that is not an infinity or nan. *)
Definition py_finite (n : pynum) : Prop :=
  match n with
  | PyInt _ => True
  | PyFloat f => is_finite f = true
  end.

(** The files with the numbers [k]. *)
Definition with_numbers (k : list N) (l : list string) : list string :=
  filter (fun x => match numbers_compare (numbers_key x) k with Eq => true | _ => false end) l.

(** A list of files in the order of the sort. *)
Definition in_order (l : list string) : Prop :=
  StronglySorted (fun a b => numbers_leb a b = true) l.

(** The number a run of digits writes, read after [acc]. *)
Fixpoint digits_value (s : list ascii) (acc : N) : N :=
  match s with
  | [] => acc
  | c :: s' =>
      match digit_of c with
      | Some d => digits_value s' (10 * acc + d)%N
      | None => acc
      end
  end.

(** A decimal digit. *)
Definition is_digit (c : ascii) : Prop := digit_of c <> None.

(** A text that does not go on with a digit. *)
Definition no_digit_ahead (t : list ascii) : Prop :=
  match t with
  | [] => True
  | c :: _ => digit_of c = None
  end.

(** [s[-1]]; the empty string has none. *)
Fixpoint last_char (s : string) : option ascii :=
  match s with
  | "" => None
  | String c "" => Some c
  | String _ s' => last_char s'
  end.

(** A header row: the two leading cells, then for every marker its name
    and the two cells that follow it, then what is left of the row. *)
Definition header_cells (c0 c1 : string) (markers : list (string * (string * string)))
    (rest : list string) : list string :=
  c0 :: c1 :: app (flat_map (fun m => [fst m; fst (snd m); snd (snd m)]) markers) rest.

Section RowPredicates.
Context {A : Type} `{Number A}.


End RowPredicates.

(** The unit of the residuals a calibration returns, by the test of
    [recap_calibrate] on [calib_full_type]: a converted file has them in mm,
    a board calibration in px, and the recap knows no other type. *)
Inductive residual_unit : Type :=
| Millimetres
| Pixels.

Definition residual_unit_of (calib_full_type : string) : option residual_unit :=
  if String.eqb calib_full_type "convert_qualisys"
     || String.eqb calib_full_type "convert_vicon" then Some Millimetres
  else if String.eqb calib_full_type "calculate_board" then Some Pixels
  else None.

(** ** Data of the examples *)

Section ExampleData.
Local Open Scope float_scope.

(** A matrix with something in every entry. *)
Definition K_full : mat float := [ [1; 2; 3]; [4; 5; 6]; [7; 8; 9] ].

Definition block_full : string * toml_table float :=
  ("cam_01",
   [ ("name", TStr "cam");
     ("size", tvec [1280; 720]);
     ("matrix", TArr [ tvec [1; 0; 3]; tvec [0; 5; 6]; tvec [0; 0; 1] ]);
     ("distortions", tvec [0; 0; 0; 0]);
     ("rotation", tvec [0; 0; 0]);
     ("translation", tvec [0; 0; 5]);
     ("fisheye", TBool false) ]).

(** A camera of the data model. *)
Definition K_cam : mat float := [ [1000.5; 0; 640.25]; [0; 1001.5; 360.75]; [0; 0; 1] ].

Definition cal_one (ret : list float) : calibration (A := float) :=
  {| cal_ret := ret; cal_C := ["cam"%string]; cal_S := [[1280; 720]];
     cal_D := [[0.1; 0.01; 0; 0]]; cal_K := [K_cam];
     cal_R := [[0; 0; 0]]; cal_T := [[0; 0; 5]] |}.


(** Two markers over two frames. *)
Definition Q_two : table (list float) :=
  [ ("A_X", [1; 2]); ("A_Y", [3; 4]); ("A_Z", [5; 6]);
    ("B_X", [7; 8]); ("B_Y", [9; 10]); ("B_Z", [11; 12]) ].

(** Three columns, two of them under one label. *)
Definition Q_dup : table (list float) :=
  [ ("A", [1; 2]); ("A", [3; 4]); ("B", [5; 6]) ].

(** The camera [K_cam] at (0,0,-5), looking along the z axis. *)
Definition P_cam_5 : mat float :=
  [ [1000.5; 0; 640.25; 3201.25]; [0; 1001.5; 360.75; 1803.75]; [0; 0; 1; 5] ].


(** The camera [K_cam] at the origin. *)
Definition P_cam_0 : mat float :=
  [ [1000.5; 0; 640.25; 0]; [0; 1001.5; 360.75; 0]; [0; 0; 1; 0] ].

(** Eight reference points of the scene and where they were clicked, each
    click 3 px right of and 4 px below the reprojection. *)
Definition scene_objp : points (A := float) :=
  [ [0; 0; 0]; [1; 0; 0]; [2; 0; 0]; [3; 0; 0];
    [0; 1; 0]; [1; 1; 0]; [2; 1; 0]; [3; 1; 0] ].

Definition scene_imgp : points (A := float) :=
  [ [3; 4]; [4; 4]; [5; 4]; [6; 4]; [3; 5]; [4; 5]; [5; 5]; [6; 5] ].

Definition in_list (x : string) (l : list string) : bool := existsb (String.eqb x) l.

(** A world with the camera folders [dirs] under both stages; only [cam1]
    holds images, and corners are found on two of its three. *)
Definition test_world (dirs : list string) : world (A := float) :=
  {| walk_dirs := fun p =>
       if in_list p ["calib/intrinsics"%string; "calib/extrinsics"%string]
       then Some dirs else None;
     glob := fun p =>
       if String.eqb p "calib/intrinsics/cam1/*.png"
       then [ "calib/intrinsics/cam1/a1.png"%string; "calib/intrinsics/cam1/a2.png"%string;
              "calib/intrinsics/cam1/a3.png"%string ]
       else if String.eqb p "calib/extrinsics/cam1/*.png"
       then [ "calib/extrinsics/cam1/view.png"%string ]
       else [];
     sorted_by_numbers := fun l => l;
     frames_extracted := fun _ => false;
     glob_frames := fun _ => [];
     findCorners := fun p _ objp _ =>
       if in_list p ["calib/intrinsics/cam1/a1.png"%string; "calib/intrinsics/cam1/a3.png"%string]
       then Some ([[10; 10]; [20; 10]; [10; 20]; [20; 20]], objp) else None;
     clicker := fun _ objp => Some (scene_imgp, objp);
     image_shape := fun _ => Some (720%nat, 1280%nat);
     calibrateCamera := fun _ _ _ => Some (0.5, K_cam, [[0.1; 0.01; 0; 0; 0]]);
     solvePnP := fun _ _ _ _ => Some ([0; 0; 0], [0; 0; 1]);
     cv_Rodrigues := fun _ => Some identity3;
     draw_overlay := fun _ _ _ => Some tt;
     toml_load := fun _ => None |}.

(** A world with no directory at all. *)
Definition no_world : world (A := float) :=
  {| walk_dirs := fun _ => None;
     glob := fun _ => [];
     sorted_by_numbers := fun l => l;
     frames_extracted := fun _ => false;
     glob_frames := fun _ => [];
     findCorners := fun _ _ _ _ => None;
     clicker := fun _ _ => None;
     image_shape := fun _ => None;
     calibrateCamera := fun _ _ _ => None;
     solvePnP := fun _ _ _ _ => None;
     cv_Rodrigues := fun _ => None;
     draw_overlay := fun _ _ _ => None;
     toml_load := fun _ => None |}.

Definition test_intrinsics : intrinsics_config (A := float) :=
  {| overwrite_intrinsics := true;
     intrinsics_extension := "png";
     show_detection_intrinsics := false;
     intrinsics_corners_nb := (2%nat, 2%nat);
     intrinsics_square_size := 60 |}.

Definition scene_config : extrinsics_config (A := float) :=
  {| calculate_extrinsics := true;
     extrinsics_extension := "png";
     extrinsics_board_type := "scene";
     extrinsics_corners_nb := (4%nat, 7%nat);
     extrinsics_square_size := 60;
     object_coords_3d := scene_objp;
     show_reprojection_error := false |}.


Definition qca_cam (serial model : string) (residual left right : float)
    : qca_camera (A := float) :=
  {| avg_residual := residual;
     serial := serial;
     model := Some model;
     cam_fov_video :=
       [ {| fov_left := left; fov_right := right; fov_top := 0; fov_bottom := 1079 |} ];
     cam_intrinsic :=
       [ {| radialDistortion1 := 0; radialDistortion2 := 0;
            tangentalDistortion1 := 0; tangentalDistortion2 := 0;
            focalLengthU := 128000; focalLengthV := 128000;
            centerPointU := 61440; centerPointV := 34560 |} ];
     cam_transform :=
       [ {| tr_x := 1000; tr_y := 2000; tr_z := 3000;
            r11 := 1; r12 := 0; r13 := 0;
            r21 := 0; r22 := 1; r23 := 0;
            r31 := 0; r32 := 0; r33 := 1 |} ] |}.

(** The scenario of the spec: a marker camera and a video camera. *)
Definition qca_two : list (qca_camera (A := float)) :=
  [ qca_cam "10001" "Miqus M3" 0.5 0 1919; qca_cam "20002" "Miqus Video" 0.25 0 1919 ].

(** Two video cameras, the file listing the later name first. *)
Definition qca_swapped : list (qca_camera (A := float)) :=
  [ qca_cam "2" "Miqus Video" 0.25 0 1919; qca_cam "1" "Miqus Video" 0.125 0 2047 ].

Definition vicon_cam (id model : string) (err width : float) : vicon_camera (A := float) :=
  {| DEVICEID := id;
     vc_model := Some model;
     SENSOR_SIZE := [width; 1080];
     PIXEL_ASPECT_RATIO := 1;
     KeyFrames :=
       [ {| WORLD_ERROR := err;
            VICON_RADIAL2 := None;
            VICON_RADIAL := Some [0.5; 0.25];
            FOCAL_LENGTH := 2000;
            PRINCIPAL_POINT := [960; 540];
            ORIENTATION := [0; 0; 0; 1];
            POSITION := [1000; 2000; 3000] |} ] |}.

(** Two Vicon cameras, device 2 before device 1; only the first has a model
    of the list line 282 names. *)
Definition vicon_two : list (vicon_camera (A := float)) :=
  [ vicon_cam "2" "none" 0.25 1920; vicon_cam "1" "Vero" 0.125 2048 ].

(** A stand-in for [quat2mat]: every orientation is the identity. *)
Definition quat_oracle : list float -> nat -> option (mat float) :=
  fun _ _ => Some identity3.

End ExampleData.

Section MoreExampleData.
Local Open Scope float_scope.

(** Two cameras, the second with two distortion coefficients only. *)
Definition short_D : list (vec float) := [ [0; 0; 0; 0]; [0; 0] ].

(** A clip of five frames, numbered from 10, at two frames a second. *)
Definition clip (fps : Z) : video nat :=
  {| isOpened := true; CAP_PROP_FPS := fps; video_frames := [10; 11; 12; 13; 14]%nat |}.

(** The table of a trajectory file with the markers A and B. *)
Definition trc_two : table (list float) :=
  ("Frame#", [1; 2]) :: ("Time", [0; 0.5]) :: Q_two.

(** Stand-ins for the helpers of the converters: a rotation and a
    translation go through unchanged, and every rotation vector is zero. *)
Definition keep_RT : mat float -> vec float -> option (mat float * vec float) :=
  fun r t => Some (r, t).

Definition zero_vector : mat float -> option (vec float) :=
  fun _ => Some [0; 0; 0].

Definition no_rounding : float -> float := fun x => x.

(** A configuration that asks for the conversion of an Optitrack file. *)
Definition optitrack_config : config (A := float) :=
  {| project_dir := "";
     calib_folder_name := "calib";
     calibration_type := "convert";
     convert_from := "optitrack";
     binning_factor := 1;
     calculate_method := "board";
     intrinsics_board_type := "checkerboard";
     board_intrinsics := test_intrinsics;
     board_extrinsics := scene_config |}.

(** The same for a Qualisys file. *)
Definition qualisys_config : config (A := float) :=
  {| project_dir := "";
     calib_folder_name := "calib";
     calibration_type := "convert";
     convert_from := "qualisys";
     binning_factor := 1;
     calculate_method := "board";
     intrinsics_board_type := "checkerboard";
     board_intrinsics := test_intrinsics;
     board_extrinsics := scene_config |}.

End MoreExampleData.

(** * Facts *)

(** ** Lists and failing operations *)

Lemma mapM_map {X Y : Type} (f : X -> option Y) (g : X -> Y) (l : list X) :
  Forall (fun x => f x = Some (g x)) l -> mapM f l = Some (map g l).
Proof.
  induction 1 as [|x l Hx _ IH]; cbn; [reflexivity|].
  now rewrite Hx, IH.
Qed.

Lemma mapM_length {X Y : Type} (f : X -> option Y) (l : list X) (r : list Y) :
  mapM f l = Some r -> length r = length l.
Proof.
  revert r; induction l as [|x l IH]; cbn; intros r Hr.
  - now inversion Hr.
  - destruct (f x); [|discriminate]. cbn in Hr.
    destruct (mapM f l) as [ys|]; [|discriminate]. cbn in Hr.
    inversion Hr; subst; cbn. f_equal. now apply IH.
Qed.

Lemma mapM_Forall2 {X Y : Type} (f : X -> option Y) (l : list X) (r : list Y) :
  mapM f l = Some r -> Forall2 (fun x y => f x = Some y) l r.
Proof.
  revert r; induction l as [|x l IH]; cbn; intros r Hr.
  - inversion Hr; constructor.
  - destruct (f x) eqn:Hx; [|discriminate]. cbn in Hr.
    destruct (mapM f l) as [ys|]; [|discriminate]. cbn in Hr.
    inversion Hr; subst. constructor; auto.
Qed.


(** ** The calibration store *)

Section StoreFacts.
Context {A : Type} `{Number A}.


Lemma cam_name_not_metadata (c : nat) :
  String.eqb ("cam_" ++ fmt_02d c) "metadata" = false.
Proof. reflexivity. Qed.

(** A block comes from [cam_block] at its own position. *)
Lemma write_cams_nth (C : list string) (S D : list (vec A)) (K : list (mat A))
    (R T : list (vec A)) (cs : list nat) (i : nat) (b : string * toml_table A) :
  nth_error (fst (write_cams C S D K R T cs)) i = Some b ->
  exists c, nth_error cs i = Some c /\ cam_block C S D K R T c = Some b.
Proof.
  revert i; induction cs as [|c cs IH]; intros i Hi; cbn in Hi.
  - destruct i; discriminate.
  - destruct (cam_block C S D K R T c) as [b0|] eqn:Hc.
    + destruct (write_cams C S D K R T cs) as [bs ok] eqn:Hw. cbn in Hi, IH.
      destruct i as [|i]; cbn in Hi.
      * inversion Hi; subst. exists c; split; [reflexivity|assumption].
      * destruct (IH i Hi) as [c' [H1 H2]]. exists c'; split; assumption.
    + destruct i; discriminate.
Qed.

Lemma cam_block_matrix (C : list string) (S D : list (vec A)) (K : list (mat A))
    (R T : list (vec A)) (c : nat) (b : string * toml_table A) :
  cam_block C S D K R T c = Some b ->
  fst b = "cam_" ++ fmt_02d (c + 1) /\
  exists k, nth_error K c = Some k /\ matrix_pinned_from k (snd b).
Proof.
  unfold cam_block. intros Hb.
  repeat match type of Hb with
         | obind ?o _ = Some _ => destruct o eqn:?; cbn [obind] in Hb; [|discriminate]
         end.
  inversion Hb; subst; clear Hb. split; [reflexivity|].
  eexists; split; [reflexivity|].
  unfold matrix_pinned_from. do 4 eexists. repeat (split; [eassumption|]). reflexivity.
Qed.

















(** C8: every camera block [toml_write] writes has the matrix
    [[k00, 0.0, k02], [0.0, k11, k12], [0.0, 0.0, 1.0]], whose four free
    entries are those of the camera's matrix in memory; the other five are
    the constants, whatever the matrix in memory holds there. *)
Theorem toml_write_pins_matrix (C : list string) (S D : list (vec A))
    (K : list (mat A)) (R T : list (vec A)) (c : nat) (b : string * toml_table A) :
  nth_error (fst (toml_write C S D K R T)) c = Some b ->
  fst b <> "metadata" ->
  exists k, nth_error K c = Some k /\ matrix_pinned_from k (snd b).
Proof.
  intros Hb Hname. unfold toml_write in Hb.
  destruct (write_cams C S D K R T (seq 0 (length C))) as [bs ok] eqn:Hw.
  assert (Hbs : nth_error bs c = Some b).
  { destruct ok; cbn [fst] in Hb; [|assumption].
    destruct (Nat.lt_ge_cases c (length bs)) as [Hlt|Hge].
    - now rewrite nth_error_app1 in Hb.
    - rewrite nth_error_app2 in Hb by assumption.
      destruct (c - length bs) as [|[|n]]; cbn in Hb; try discriminate.
      inversion Hb; subst. now elim Hname. }
  assert (Hbs' : nth_error (fst (write_cams C S D K R T (seq 0 (length C)))) c = Some b)
    by now rewrite Hw.
  destruct (write_cams_nth _ _ _ _ _ _ _ _ Hbs') as (c' & Hc' & Hblock).
  assert (c' = c).
  { assert (Hlt : c < length (seq 0 (length C))).
    { apply nth_error_Some. now rewrite Hc'. }
    rewrite length_seq in Hlt.
    apply (nth_error_nth _ _ 0) in Hc'. now rewrite seq_nth in Hc'. }
  subst c'. now apply cam_block_matrix in Hblock.
Qed.


(** [computeP] works on what [camera_entries] reads. *)
Lemma computeP_entries (Rodrigues : vec A -> option (mat A)) (doc : toml_doc A) :
  computeP Rodrigues doc
  = (entries <- camera_entries doc ;;
     mapM (fun e => R <- Rodrigues (snd (fst e)) ;;
                    projection_matrix (fst (fst e)) R (snd e)) entries).
Proof.
  unfold camera_entries, camera_blocks.
  induction doc as [|[cam tbl] doc IH]; [reflexivity|].
  cbn [computeP filter fst]. destruct (String.eqb cam "metadata"); cbn [negb].
  - exact IH.
  - cbn [mapM snd]. rewrite IH.
    destruct (camera_entry tbl) as [[[K rot] T]|]; [|reflexivity].
    cbn [obind fst snd].
    destruct (mapM (fun b => camera_entry (snd b)) _) as [es|]; cbn [obind mapM fst snd].
    + destruct (Rodrigues rot) as [R|]; [|reflexivity]. cbn [obind].
      destruct (projection_matrix K R T); reflexivity.
    + destruct (Rodrigues rot) as [R|]; [|reflexivity]. cbn [obind].
      destruct (projection_matrix K R T); reflexivity.
Qed.


End StoreFacts.


Section StoreExamples.
Local Open Scope float_scope.

Lemma toml_write_pins_matrix_witness :
  exists k, nth_error [K_full] 0 = Some k /\ matrix_pinned_from k (snd block_full).
Proof.
  apply (@toml_write_pins_matrix float _ ["cam"%string] [[1280; 720]] [[0; 0; 0; 0]]
           [K_full] [[0; 0; 0]] [[0; 0; 5]] 0%nat block_full).
  - reflexivity.
  - discriminate.
Defined.






End StoreExamples.

(** ** Trajectory tables *)

Lemma mapM_ext {X Y : Type} (f g : X -> option Y) (l : list X) :
  (forall x, In x l -> f x = g x) -> mapM f l = mapM g l.
Proof.
  induction l as [|x l IH]; intros Hfg; cbn; [reflexivity|].
  rewrite (Hfg x (or_introl eq_refl)), IH; [reflexivity|].
  intros y Hy. apply Hfg. now right.
Qed.

Lemma mapM_map_in {X Y Z : Type} (f : Y -> option Z) (g : X -> Y) (l : list X) :
  mapM f (map g l) = mapM (fun x => f (g x)) l.
Proof. induction l as [|x l IH]; cbn; [reflexivity|]. now rewrite IH. Qed.

Lemma rotate_triplets_perm {Y : Type} (N : nat) (l : list Y) :
  length l = 3 * N -> Permutation (rotate_triplets l) l.
Proof.
  revert l; induction N as [|N IH]; intros l Hl.
  - destruct l; [constructor|discriminate].
  - destruct l as [|x [|y [|z l]]]; cbn in Hl; try lia.
    cbn [rotate_triplets].
    transitivity (z :: x :: y :: l).
    + do 3 apply perm_skip. apply IH. lia.
    + change (Permutation ([z] ++ [x; y] ++ l) ([x; y] ++ [z] ++ l)).
      apply Permutation_app_swap_app.
Qed.

Lemma unrotate_rotate {Y : Type} (N : nat) (l : list Y) :
  length l = 3 * N -> unrotate_triplets (rotate_triplets l) = l.
Proof.
  revert l; induction N as [|N IH]; intros l Hl.
  - destruct l; [reflexivity|discriminate].
  - destruct l as [|x [|y [|z l]]]; cbn in Hl; try lia.
    cbn. do 3 f_equal. apply IH. lia.
Qed.

Lemma rotate_triplets_map {X Y : Type} (f : X -> Y) (N : nat) (l : list X) :
  length l = 3 * N -> map f (rotate_triplets l) = rotate_triplets (map f l).
Proof.
  revert l; induction N as [|N IH]; intros l Hl.
  - destruct l; [reflexivity|discriminate].
  - destruct l as [|x [|y [|z l]]]; cbn in Hl; try lia.
    cbn. do 3 f_equal. apply IH. lia.
Qed.

(** The labels of one triplet, from position [3 (S i)] on, are those from
    [3 i] on past the first three. *)
Lemma triplet_labels_step (a b c : nat) (x y z : string) (cols : list string) :
  triplet_labels a b c (x :: y :: z :: cols)
  = (t0 <- (l0 <- nth_error (x :: y :: z :: cols) a ;;
            l1 <- nth_error (x :: y :: z :: cols) b ;;
            l2 <- nth_error (x :: y :: z :: cols) c ;; Some [l0; l1; l2]) ;;
     rest <- triplet_labels a b c cols ;; Some (t0 ++ rest)%list).
Proof.
  unfold triplet_labels.
  replace (length (x :: y :: z :: cols) / 3) with (S (length cols / 3)).
  2:{ change (length (x :: y :: z :: cols)) with (3 + length cols).
      change 3 with (1 * 3) at 2. now rewrite Nat.div_add_l. }
  rewrite <- cons_seq, <- seq_shift. cbn [mapM].
  rewrite mapM_map_in.
  rewrite (@mapM_ext _ _ (fun i => _)
             (fun i => x0 <- nth_error cols (i * 3 + a) ;;
                       y0 <- nth_error cols (i * 3 + b) ;;
                       z0 <- nth_error cols (i * 3 + c) ;; Some [x0; y0; z0])).
  2:{ intros i _. cbn [Nat.mul]. rewrite <- !Nat.add_assoc. reflexivity. }
  cbn [Nat.mul Nat.add].
  destruct (nth_error (x :: y :: z :: cols) a) as [l0|]; [|reflexivity].
  destruct (nth_error (x :: y :: z :: cols) b) as [l1|]; [|reflexivity].
  destruct (nth_error (x :: y :: z :: cols) c) as [l2|]; [|reflexivity].
  cbn [obind].
  destruct (mapM _ (seq 0 (length cols / 3))); reflexivity.
Qed.

Lemma triplet_labels_yup2zup (N : nat) (cols : list string) :
  length cols = 3 * N -> triplet_labels 2 0 1 cols = Some (rotate_triplets cols).
Proof.
  revert cols; induction N as [|N IH]; intros cols Hl.
  - destruct cols; [reflexivity|discriminate].
  - destruct cols as [|x [|y [|z cols]]]; cbn in Hl; try lia.
    rewrite triplet_labels_step, IH by lia. reflexivity.
Qed.

Lemma triplet_labels_zup2yup (N : nat) (cols : list string) :
  length cols = 3 * N -> triplet_labels 1 2 0 (rotate_triplets cols) = Some cols.
Proof.
  revert cols; induction N as [|N IH]; intros cols Hl.
  - destruct cols; [reflexivity|discriminate].
  - destruct cols as [|x [|y [|z cols]]]; cbn in Hl; try lia.
    cbn [rotate_triplets]. rewrite triplet_labels_step, IH by lia. reflexivity.
Qed.

Lemma filter_none {Y : Type} (f : Y -> bool) (l : list Y) :
  (forall y, In y l -> f y = false) -> filter f l = [].
Proof.
  induction l as [|y l IH]; intros Hf; cbn; [reflexivity|].
  rewrite (Hf y (or_introl eq_refl)). apply IH. intros z Hz. apply Hf. now right.
Qed.

Section TrajectoryFacts.
Variable X : Type.

(** With labels all different a label selects its one column. *)
Lemma select_label_unique (Q : table X) (c : string * X) :
  NoDup (columns Q) -> In c Q -> select_label Q (fst c) = Some [c].
Proof.
  intros Hnd Hin. unfold select_label.
  assert (Hf : filter (fun c0 => String.eqb (fst c0) (fst c)) Q = [c]).
  { induction Q as [|q Q IH]; [contradiction|].
    cbn in Hnd. apply NoDup_cons_iff in Hnd as [Hnot Hnd].
    cbn [filter]. destruct Hin as [->|Hin].
    - rewrite String.eqb_refl. f_equal.
      apply filter_none. intros d Hd.
      apply String.eqb_neq. intros Heq.
      apply Hnot. rewrite <- Heq. now apply in_map.
    - destruct (String.eqb (fst q) (fst c)) eqn:E.
      + apply String.eqb_eq in E. exfalso. apply Hnot. rewrite E. now apply in_map.
      + now apply IH. }
  now rewrite Hf.
Qed.

Lemma getcols_present (Q Q' : table X) :
  NoDup (columns Q) -> incl Q' Q -> getcols Q (columns Q') = Some Q'.
Proof.
  intros Hnd Hincl. unfold getcols, columns.
  rewrite mapM_map_in.
  rewrite mapM_map with (g := fun c : string * X => [c]).
  - cbn [obind]. f_equal. induction Q' as [|c Q' IH]; [reflexivity|].
    cbn. f_equal. apply IH. intros d Hd. apply Hincl. now right.
  - apply Forall_forall. intros c Hc. apply select_label_unique; [assumption|].
    now apply Hincl.
Qed.


(** C7, amended: on a table of 3N columns whose labels are all different
    (N = 0, the empty table, included) [yup2zup] returns the columns with
    every triplet (x,y,z) reordered to (z,x,y), each column with its own
    values, and the inverse permutation gives the table back. *)
Theorem yup2zup_rotates_triplets (Q : table X) (N : nat) :
  NoDup (columns Q) -> length Q = 3 * N ->
  yup2zup Q = Some (rotate_triplets Q) /\
  Permutation (rotate_triplets Q) Q /\
  unrotate_triplets (rotate_triplets Q) = Q.
Proof.
  intros Hnd Hlen.
  assert (Hperm : Permutation (rotate_triplets Q) Q)
    by now apply rotate_triplets_perm with (N := N).
  assert (Hcols : length (columns Q) = 3 * N)
    by (unfold columns; now rewrite length_map).
  assert (Hmap : columns (rotate_triplets Q) = rotate_triplets (columns Q))
    by now apply rotate_triplets_map with (N := N).
  split; [|split; [assumption|now apply unrotate_rotate with (N := N)]].
  unfold yup2zup. rewrite triplet_labels_yup2zup with (N := N) by assumption.
  cbn [obind].
  rewrite <- Hmap. apply getcols_present; [assumption|].
  intros c Hc. now apply (Permutation_in _ Hperm).
Qed.

(** The inverse written as a function on tables, the way [yup2zup] is,
    undoes it as well. *)
Lemma zup2yup_after_yup2zup (Q : table X) (N : nat) :
  NoDup (columns Q) -> length Q = 3 * N ->
  zup2yup (rotate_triplets Q) = Some Q.
Proof.
  intros Hnd Hlen.
  assert (Hperm : Permutation (rotate_triplets Q) Q)
    by now apply rotate_triplets_perm with (N := N).
  assert (Hcols : length (columns Q) = 3 * N)
    by (unfold columns; now rewrite length_map).
  assert (Hmap : columns (rotate_triplets Q) = rotate_triplets (columns Q))
    by now apply rotate_triplets_map with (N := N).
  unfold zup2yup. rewrite Hmap.
  rewrite triplet_labels_zup2yup with (N := N) by assumption. cbn [obind].
  apply getcols_present.
  - rewrite Hmap. apply Permutation_NoDup with (l := columns Q); [|assumption].
    symmetry. now apply rotate_triplets_perm with (N := N).
  - intros c Hc. now apply (Permutation_in _ (Permutation_sym Hperm)).
Qed.

End TrajectoryFacts.

Section TrajectoryExamples.
Local Open Scope float_scope.

Lemma yup2zup_rotates_triplets_witness :
  yup2zup Q_two
  = Some [ ("A_Z", [5; 6]); ("A_X", [1; 2]); ("A_Y", [3; 4]);
           ("B_Z", [11; 12]); ("B_X", [7; 8]); ("B_Y", [9; 10]) ] /\
  Permutation (rotate_triplets Q_two) Q_two /\
  unrotate_triplets (rotate_triplets Q_two) = Q_two.
Proof.
  refine (@yup2zup_rotates_triplets (list float) Q_two 2 _ _).
  - repeat constructor; cbn; intuition discriminate.
  - reflexivity.
Defined.

Lemma yup2zup_duplicate_labels_counterexample :
  length Q_dup = (3 * 1)%nat /\
  yup2zup Q_dup
  = Some [ ("B", [5; 6]); ("A", [1; 2]); ("A", [3; 4]); ("A", [1; 2]); ("A", [3; 4]) ] /\
  rotate_triplets Q_dup = [ ("B", [5; 6]); ("A", [1; 2]); ("A", [3; 4]) ] /\
  ~ Permutation [ ("B", [5; 6]); ("A", [1; 2]); ("A", [3; 4]); ("A", [1; 2]); ("A", [3; 4]) ]
                Q_dup.
Proof.
  repeat split; try reflexivity.
  intros Hp. apply Permutation_length in Hp. discriminate.
Qed.

End TrajectoryExamples.

(** ** The projection engine *)

Section ProjectionShape.
Context {A : Type} `{Number A}.

Lemma has_shape_3 (c : nat) (M : mat A) :
  has_shape 3 c M -> exists r0 r1 r2,
    M = [r0; r1; r2] /\ length r0 = c /\ length r1 = c /\ length r2 = c.
Proof.
  intros [Hrows Hcols].
  destruct M as [|r0 [|r1 [|r2 [|]]]]; try discriminate.
  apply Forall_cons_iff in Hcols as [H0 Hcols].
  apply Forall_cons_iff in Hcols as [H1 Hcols].
  apply Forall_cons_iff in Hcols as [H2 _].
  now exists r0, r1, r2.
Qed.

(** The projection matrix of a 3x3 intrinsic matrix, a 3x3 rotation and a
    translation of three numbers is built without an error and is 3x4. *)
Lemma projection_matrix_shape (K R : mat A) (T : vec A) :
  has_shape 3 3 K -> has_shape 3 3 R -> length T = 3 ->
  exists P, projection_matrix K R T = Some P /\ has_shape 3 4 P.
Proof.
  intros HK HR HT.
  destruct (has_shape_3 HK) as (k0 & k1 & k2 & -> & Hk0 & Hk1 & Hk2).
  destruct (has_shape_3 HR) as (r0 & r1 & r2 & -> & Hr0 & Hr1 & Hr2).
  destruct k0 as [|? [|? [|? [|]]]]; try discriminate.
  destruct k1 as [|? [|? [|? [|]]]]; try discriminate.
  destruct k2 as [|? [|? [|? [|]]]]; try discriminate.
  destruct r0 as [|? [|? [|? [|]]]]; try discriminate.
  destruct r1 as [|? [|? [|? [|]]]]; try discriminate.
  destruct r2 as [|? [|? [|? [|]]]]; try discriminate.
  destruct T as [|? [|? [|? [|]]]]; try discriminate.
  eexists. split; [reflexivity|].
  split; [reflexivity|repeat constructor].
Qed.

End ProjectionShape.

(** *** Exact arithmetic *)

Section ProjectionReal.
Local Open Scope R_scope.



End ProjectionReal.

(** *** Binary64 *)

Lemma is_zero_spec (d : float) :
  is_zero d = true -> exists s, Prim2SF d = S754_zero s.
Proof.
  unfold is_zero. rewrite FloatAxioms.eqb_spec.
  change (Prim2SF PrimFloat.zero) with (S754_zero false).
  destruct (Prim2SF d) as [s|s| |s m e]; try destruct s; cbn; try discriminate; eauto.
Qed.

(** A quotient by zero is an infinity or the NaN. *)
Lemma div_by_zero_not_finite (a d : float) :
  is_zero d = true -> is_finite (a / d)%float = false.
Proof.
  intros Hd. destruct (@is_zero_spec d Hd) as [s Hs].
  unfold is_finite, is_nan, is_infinity.
  rewrite !FloatAxioms.eqb_spec, FloatAxioms.abs_spec, FloatAxioms.div_spec, Hs.
  change (Prim2SF infinity) with (S754_infinity false).
  destruct (Prim2SF a) as [sa|sa| |sa m e]; try destruct sa; destruct s; reflexivity.
Qed.

Section ProjectionFloat.
Local Open Scope float_scope.

Lemma dot_rows_defined (r Q : vec float) :
  length r = 4%nat -> length Q = 4%nat -> exists a, dot r Q = Some a.
Proof.
  intros Hr HQ.
  destruct r as [|r0 [|r1 [|r2 [|r3 [|]]]]]; try discriminate.
  destruct Q as [|q0 [|q1 [|q2 [|q3 [|]]]]]; try discriminate.
  eexists. reflexivity.
Qed.

(** On a 3x4 matrix and a point of four coordinates nothing in
    [reprojection]'s loop raises, and a zero denominator gives coordinates
    that are not finite. *)
Lemma reproject_cam_defined (P_cam : mat float) (Q : vec float) :
  has_shape 3 4 P_cam -> length Q = 4%nat ->
  exists x y d,
    reproject_cam P_cam Q = Some (x, y) /\
    denominator P_cam Q = Some d /\
    (is_zero d = true -> is_finite x = false /\ is_finite y = false).
Proof.
  intros [Hrows Hcols] HQ.
  destruct P_cam as [|r0 [|r1 [|r2 [|]]]]; try discriminate.
  apply Forall_cons_iff in Hcols as [H0 Hcols].
  apply Forall_cons_iff in Hcols as [H1 Hcols].
  apply Forall_cons_iff in Hcols as [H2 _].
  destruct (@dot_rows_defined r0 Q H0 HQ) as [a0 Ha0].
  destruct (@dot_rows_defined r1 Q H1 HQ) as [a1 Ha1].
  destruct (@dot_rows_defined r2 Q H2 HQ) as [a2 Ha2].
  exists (a0 / a2), (a1 / a2), a2.
  unfold reproject_cam, denominator. cbn [nth_error obind].
  rewrite Ha0. cbn [obind]. rewrite Ha2. cbn [obind]. rewrite Ha1. cbn [obind].
  split; [reflexivity|]. split; [reflexivity|].
  intros Hz. split; now apply div_by_zero_not_finite.
Qed.

(** C6, amended: on 3x4 projection matrices and a homogeneous point
    [reprojection] returns, one pair of coordinates per camera, and a camera
    whose denominator [row2.Q] is zero gets coordinates that are not finite
    (an infinity or NaN); nothing is trapped or replaced. *)
Theorem reprojection_total (P_all : list (mat float)) (Q : vec float) :
  Forall (has_shape 3 4) P_all -> length Q = 4%nat ->
  exists xs ys,
    reprojection P_all Q = Some (xs, ys) /\
    length xs = length P_all /\ length ys = length P_all /\
    forall c P_cam x y,
      nth_error P_all c = Some P_cam ->
      nth_error xs c = Some x -> nth_error ys c = Some y ->
      exists d, denominator P_cam Q = Some d /\
                (is_zero d = true -> is_finite x = false /\ is_finite y = false).
Proof.
  intros HP HQ. induction HP as [|P_cam P_all HPc _ IH].
  - exists [], []. repeat split; try reflexivity.
    intros [|c] ? ? ? Hc; discriminate.
  - destruct IH as (xs & ys & Hr & Hxs & Hys & Hall).
    destruct (@reproject_cam_defined P_cam Q HPc HQ) as (x & y & d & Hxy & Hd & Hz).
    exists (x :: xs), (y :: ys). cbn [reprojection].
    rewrite Hxy, Hr. cbn [obind length].
    split; [reflexivity|]. split; [now f_equal|]. split; [now f_equal|].
    intros [|c] P' x' y' HP' Hx' Hy'; cbn [nth_error] in *.
    + inversion HP'; inversion Hx'; inversion Hy'; subst. now exists d.
    + now apply (Hall c).
Qed.


Lemma P_cam_5_built : projection_matrix K_cam identity3 [0; 0; 5] = Some P_cam_5.
Proof. reflexivity. Qed.


(** Away from the camera centre the binary64 result is the principal point. *)
Lemma reprojection_optical_axis_float_example :
  (P <- projection_matrix K_cam identity3 [0; 0; 5] ;; reprojection [P] [0; 0; 2; 1])
  = Some ([640.25], [360.75]).
Proof. reflexivity. Qed.

(** The camera centre itself: 0/0 on both coordinates. *)
Lemma reprojection_total_witness :
  exists xs ys,
    reprojection [P_cam_5] [0; 0; -5; 1] = Some (xs, ys) /\
    length xs = 1%nat /\ length ys = 1%nat /\
    forall c P_cam x y,
      nth_error [P_cam_5] c = Some P_cam ->
      nth_error xs c = Some x -> nth_error ys c = Some y ->
      exists d, denominator P_cam [0; 0; -5; 1] = Some d /\
                (is_zero d = true -> is_finite x = false /\ is_finite y = false).
Proof.
  refine (@reprojection_total [P_cam_5] [0; 0; -5; 1] _ _).
  - repeat constructor.
  - reflexivity.
Defined.

Lemma reprojection_at_camera_centre :
  reprojection [P_cam_5] [0; 0; -5; 1] = Some ([nan], [nan]) /\
  denominator P_cam_5 [0; 0; -5; 1] = Some 0.
Proof. split; reflexivity. Qed.

(** The denominator nearest to zero that is not zero, the least positive
    binary64, with finite coordinates. *)
Lemma reprojection_near_zero_counterexample :
  projection_matrix K_cam identity3 [0; 0; 0] = Some P_cam_0 /\
  next_up 0 = 0x1p-1074 /\
  denominator P_cam_0 [0; 0; 0x1p-1074; 1] = Some 0x1p-1074 /\
  reprojection [P_cam_0] [0; 0; 0x1p-1074; 1] = Some ([640], [361]) /\
  is_finite 640 = true /\ is_finite 361 = true.
Proof. repeat split; reflexivity. Qed.

End ProjectionFloat.

(** ** Board calibration *)

(** *** The calibration error, in exact arithmetic *)

Section BoardReal.
Local Open Scope R_scope.

Lemma fold_left_Rplus (l : list R) (a : R) :
  fold_left Rplus l a = a + fold_right Rplus 0 l.
Proof.
  revert a; induction l as [|x l IH]; intros a; cbn.
  - lra.
  - rewrite IH. lra.
Qed.

Lemma nsum_squares_nonneg (dists : list R) :
  0 <= nsum (map (fun d => d * d)%num dists).
Proof.
  unfold nsum. cbn [nlit nadd R_Number]. rewrite fold_left_Rplus.
  induction dists as [|d dists IH]; cbn [map fold_right nmul R_Number] in *; [lra|].
  nra.
Qed.

Lemma nsum_squares_pos (dists : list R) :
  Exists (fun d => d <> 0) dists -> 0 < nsum (map (fun d => d * d)%num dists).
Proof.
  intros Hex. pose proof (nsum_squares_nonneg dists) as H0.
  unfold nsum in *. cbn [nlit nadd R_Number] in *. rewrite fold_left_Rplus in *.
  induction Hex as [d dists Hd|d dists _ IH]; cbn [map fold_right nmul R_Number] in *.
  - pose proof (nsum_squares_nonneg dists) as H1.
    unfold nsum in H1. cbn [nlit nadd R_Number] in H1. rewrite fold_left_Rplus in H1.
    cbn [nmul R_Number] in H1. nra.
  - pose proof (nsum_squares_nonneg dists) as H1.
    unfold nsum in H1. cbn [nlit nadd R_Number] in H1. rewrite fold_left_Rplus in H1.
    cbn [nmul R_Number] in H1. specialize (IH H1). nra.
Qed.

(** C1: the error line 561 computes is the square root of the SUM of the
    squared distances.  Over n >= 2 points that are not all reprojected
    exactly it is sqrt(n) times the root mean square, and differs from it. *)
Theorem rms_px_of_is_not_mean (dists : list R) :
  (2 <= length dists)%nat -> Exists (fun d => d <> 0) dists ->
  rms_px_of dists = R_sqrt.sqrt (INR (length dists)) * root_mean_square dists /\
  rms_px_of dists <> root_mean_square dists.
Proof.
  intros Hn Hex.
  pose proof (nsum_squares_pos Hex) as HS.
  unfold rms_px_of, root_mean_square.
  set (S := nsum (map (fun d => (d * d)%num) dists)) in *.
  cbn [nsqrt nmul ndiv nlit R_Number].
  rewrite <- INR_IZR_INZ.
  assert (Hn2 : 2 <= INR (length dists)).
  { change 2 with (INR 2). now apply le_INR. }
  set (n := INR (length dists)) in *.
  assert (Hq : 0 < 1 / n * S).
  { apply Rmult_lt_0_compat; [|assumption]. apply Rdiv_lt_0_compat; lra. }
  split.
  - rewrite <- sqrt_mult by lra. f_equal. field. lra.
  - intros Heq. apply sqrt_inj in Heq; [|lra|lra].
    assert (Hm : n * S = n * (1 / n * S)) by now rewrite <- Heq.
    replace (n * (1 / n * S)) with S in Hm by (field; lra).
    nra.
Qed.

Lemma rms_px_of_is_not_mean_witness :
  rms_px_of [5; 5] = R_sqrt.sqrt (INR 2) * root_mean_square [5; 5] /\
  rms_px_of [5; 5] <> root_mean_square [5; 5].
Proof.
  refine (@rms_px_of_is_not_mean [5; 5] _ _).
  - cbn. lia.
  - constructor. lra.
Defined.

End BoardReal.

(** *** Runs *)


Lemma bind_run_raised {X Y : Type} (l : list string) (e : exn) (k : X -> run Y) :
  bind_run (l, inl e) k = (l, inl e).
Proof. reflexivity. Qed.





(** *** Failures of the board calibration *)

Section BoardFacts.
Context {A : Type} `{Number A}.
Variable w : world (A := A).







End BoardFacts.

(** *** Runs in a small world *)

Section BoardExamples.
Local Open Scope float_scope.



(** The run behind C1: one camera, eight points, every reprojection 5 px off.
    The error returned is sqrt(8 * 25) = 14.14..., the root mean square is 5. *)
Lemma calibrate_extrinsics_error_example :
  snd (calibrate_extrinsics (test_world ["cam1"%string]) "calib" scene_config
         ["cam_01"%string] [[1280; 720]] [identity3] [[0; 0; 0; 0]])
  = inr {| cal_ret := [14.142135623730951];
           cal_C := ["cam_01"%string]; cal_S := [[1280; 720]];
           cal_D := [[0; 0; 0; 0]]; cal_K := [identity3];
           cal_R := [[0; 0; 0]]; cal_T := [[0; 0; 1]] |} /\
  (P <- projection_matrix identity3 identity3 [0; 0; 1] ;;
   proj <- project_points P scene_objp ;;
   imgp_to_objreproj_dist proj scene_imgp)
  = Some [5; 5; 5; 5; 5; 5; 5; 5] /\
  rms_px_of [5; 5; 5; 5; 5; 5; 5; 5] = 14.142135623730951 /\
  root_mean_square [5; 5; 5; 5; 5; 5; 5; 5] = 5.
Proof. repeat split; vm_compute; reflexivity. Qed.

End BoardExamples.

(** ** The vendor readers *)

(** *** Selections by index *)

Lemma Forall2_mapM {X Y : Type} (f : X -> option Y) (l : list X) (r : list Y) :
  Forall2 (fun x y => f x = Some y) l r -> mapM f l = Some r.
Proof.
  induction 1 as [|x y l r Hxy _ IH]; cbn; [reflexivity|].
  now rewrite Hxy, IH.
Qed.


Lemma getitems_map {X Y : Type} (f : X -> Y) (l : list X) (idx : list nat) (sel : list X) :
  getitems l idx = Some sel -> getitems (map f l) idx = Some (map f sel).
Proof.
  unfold getitems. intros Hsel. apply mapM_Forall2 in Hsel. apply Forall2_mapM.
  induction Hsel as [|i x idx sel Hi _ IH]; cbn; constructor; [|assumption].
  now rewrite nth_error_map, Hi.
Qed.





(** *** The natural sort permutes *)

Lemma natural_insert_perm (x : string) (l : list string) :
  Permutation (natural_insert x l) (x :: l).
Proof.
  induction l as [|y l IH]; cbn; [reflexivity|].
  destruct (natural_leb x y); [reflexivity|].
  rewrite IH. apply perm_swap.
Qed.

Lemma natural_sort_perm (l : list string) : Permutation (natural_sort l) l.
Proof.
  induction l as [|x l IH]; cbn; [reflexivity|].
  rewrite natural_insert_perm. now constructor.
Qed.

(** *** The order both readers compute (lines 186-188 and 310-312) *)




Lemma length_enumerate {X : Type} (l : list X) : length (enumerate l) = length l.
Proof. unfold enumerate. rewrite length_combine, length_seq. lia. Qed.



Section ReaderFacts.
Context {A : Type} `{Number A}.

Lemma getitems_length {X : Type} (l : list X) (idx : list nat) (sel : list X) :
  getitems l idx = Some sel -> length sel = length idx.
Proof. unfold getitems. apply mapM_length. Qed.



Lemma map_fst_enumerate {X : Type} (l : list X) :
  map fst (enumerate l) = seq 0 (length l).
Proof.
  unfold enumerate. generalize 0. induction l as [|x l IH]; intros k; cbn; [reflexivity|].
  now rewrite IH.
Qed.



End ReaderFacts.

(** *** Two synthetic exports *)

Section ReaderExamples.
Local Open Scope float_scope.




(** The scenario of the spec in full: one camera comes back, its image size
    is [(right - left + 1) / binning]. *)
Lemma read_qca_scenario :
  read_qca qca_two 2
  = Some {| vnd_ret := [0.25]; vnd_C := ["20002"%string];
            vnd_S := [[(1919 - 0 + 1) / 2; (1079 - 0 + 1) / 2]];
            vnd_D := [[0; 0; 0; 0]];
            vnd_K := [ [ [1000; 0; 480]; [0; 1000; 270]; [0; 0; 1] ] ];
            vnd_R := [identity3];
            vnd_T := [[1; 2; 3]] |}.
Proof. reflexivity. Qed.


(** C2: [read_vicon] sorts the names and reorders [S], [D], [K], [R], [T]
    with them, and returns the residuals as the file lists them.  Device 1
    comes first in the result with the sensor size of device 1 and the
    residual of device 2. *)
Theorem read_vicon_residuals_misaligned :
  map DEVICEID vicon_two = ["2"%string; "1"%string] /\
  mapM (fun cam => kf <- first_keyframe cam ;; Some (WORLD_ERROR kf)) vicon_two
  = Some [0.25; 0.125] /\
  map (SENSOR_SIZE (A := float)) vicon_two = [[1920; 1080]; [2048; 1080]] /\
  exists cal,
    read_vicon quat_oracle vicon_two = Some cal /\
    vnd_C cal = ["1"%string; "2"%string] /\
    vnd_S cal = [[2048; 1080]; [1920; 1080]] /\
    vnd_ret cal = [0.25; 0.125].
Proof. repeat split. eexists. repeat split; reflexivity. Qed.

(** [read_qca] on the same kind of input reorders the residuals too. *)
Lemma read_qca_residuals_aligned :
  map (serial (A := float)) qca_swapped = ["2"%string; "1"%string] /\
  map (avg_residual (A := float)) qca_swapped = [0.25; 0.125] /\
  exists cal,
    read_qca qca_swapped 1 = Some cal /\
    vnd_C cal = ["1"%string; "2"%string] /\
    vnd_S cal = [[2048; 1080]; [1920; 1080]] /\
    vnd_ret cal = [0.125; 0.25].
Proof. repeat split. eexists. repeat split; reflexivity. Qed.

End ReaderExamples.

(** * Further facts *)

(** ** More on the calibration store *)

Lemma nat_of_str_of_nat (n : nat) : nat_of_str (str_of_nat n) = Some n.
Proof.
  unfold nat_of_str, str_of_nat. rewrite NilEmpty.usu. cbn.
  now rewrite DecimalNat.Unsigned.of_to.
Qed.

Lemma nat_of_str_zero (s : string) : nat_of_str ("0" ++ s) = nat_of_str s.
Proof.
  unfold nat_of_str. cbn. destruct (NilEmpty.uint_of_string s); reflexivity.
Qed.

Lemma nat_of_str_fmt_02d (n : nat) : nat_of_str (fmt_02d n) = Some n.
Proof.
  unfold fmt_02d. destruct (Nat.ltb _ _).
  - rewrite nat_of_str_zero. apply nat_of_str_of_nat.
  - apply nat_of_str_of_nat.
Qed.

Lemma fmt_02d_inj (m n : nat) : fmt_02d m = fmt_02d n -> m = n.
Proof.
  intros E. apply (f_equal nat_of_str) in E.
  rewrite !nat_of_str_fmt_02d in E. congruence.
Qed.

Section StoreMore.
Context {A : Type} `{Number A}.

Lemma write_cams_app (C : list string) (S D : list (vec A)) (K : list (mat A))
    (R T : list (vec A)) (cs1 cs2 : list nat) :
  write_cams C S D K R T (cs1 ++ cs2)
  = (let '(b1, ok1) := write_cams C S D K R T cs1 in
     if ok1 then let '(b2, ok2) := write_cams C S D K R T cs2 in ((b1 ++ b2)%list, ok2)
     else (b1, false)).
Proof.
  induction cs1 as [|c cs1 IH]; cbn.
  - now destruct (write_cams C S D K R T cs2).
  - destruct (cam_block C S D K R T c); [|reflexivity].
    rewrite IH. destruct (write_cams C S D K R T cs1) as [b1 [|]].
    + now destruct (write_cams C S D K R T cs2).
    + reflexivity.
Qed.

Lemma write_cams_mapM (C : list string) (S D : list (vec A)) (K : list (mat A))
    (R T : list (vec A)) (cs : list nat) (bs : toml_doc A) :
  mapM (cam_block C S D K R T) cs = Some bs ->
  write_cams C S D K R T cs = (bs, true).
Proof.
  revert bs; induction cs as [|c cs IH]; cbn; intros bs E.
  - now inversion E.
  - destruct (cam_block C S D K R T c); [|discriminate]. cbn in E.
    destruct (mapM (cam_block C S D K R T) cs); [|discriminate].
    inversion E; subst. now rewrite (IH l eq_refl).
Qed.

Lemma write_cams_ok (C : list string) (S D : list (vec A)) (K : list (mat A))
    (R T : list (vec A)) (cs : list nat) (bs : toml_doc A) :
  write_cams C S D K R T cs = (bs, true) ->
  mapM (cam_block C S D K R T) cs = Some bs.
Proof.
  revert bs; induction cs as [|c cs IH]; cbn; intros bs E.
  - now inversion E.
  - destruct (cam_block C S D K R T c); [|discriminate]. cbn.
    destruct (write_cams C S D K R T cs) as [bs' ok]. inversion E; subst.
    now rewrite (IH bs' eq_refl).
Qed.

Lemma cam_block_name (C : list string) (S D : list (vec A)) (K : list (mat A))
    (R T : list (vec A)) (c : nat) (b : string * toml_table A) :
  cam_block C S D K R T c = Some b -> fst b = "cam_" ++ fmt_02d (c + 1).
Proof. intros E. now destruct (cam_block_matrix _ _ _ _ _ _ _ E). Qed.

Lemma mapM_cam_block_names (C : list string) (S D : list (vec A)) (K : list (mat A))
    (R T : list (vec A)) (cs : list nat) (bs : toml_doc A) :
  mapM (cam_block C S D K R T) cs = Some bs ->
  map fst bs = map (fun c => "cam_" ++ fmt_02d (c + 1)) cs.
Proof.
  revert bs; induction cs as [|c cs IH]; cbn; intros bs E.
  - now inversion E.
  - destruct (cam_block C S D K R T c) eqn:Eb; [|discriminate]. cbn in E.
    destruct (mapM (cam_block C S D K R T) cs); [|discriminate].
    inversion E; subst. cbn. now rewrite (cam_block_name _ _ _ _ _ _ _ Eb), (IH l eq_refl).
Qed.

Lemma lookup_not_in {V : Type} (k : string) (d : list (string * V)) :
  ~ In k (map fst d) -> lookup k d = None.
Proof.
  induction d as [|[k' v] d IH]; cbn; intros Hn; [reflexivity|].
  destruct (String.eqb_spec k k') as [->|_]; [exfalso; now apply Hn; left|].
  apply IH. intros Hin. apply Hn. now right.
Qed.

Lemma metadata_not_cam (cs : list nat) :
  ~ In "metadata" (map (fun c => "cam_" ++ fmt_02d (c + 1)) cs).
Proof.
  intros Hin. apply in_map_iff in Hin. destruct Hin as (c & E & _).
  pose proof (cam_name_not_metadata (c + 1)) as Hn. rewrite E in Hn. discriminate.
Qed.

Lemma cam_names_NoDup (cs : list nat) :
  NoDup cs -> NoDup (map (fun c => "cam_" ++ fmt_02d (c + 1)) cs).
Proof.
  induction 1 as [|c cs Hc Hnd IH]; cbn; constructor; [|assumption].
  intros Hin. apply in_map_iff in Hin. destruct Hin as (c' & E & Hc').
  inversion E as [E']. apply fmt_02d_inj in E'.
  assert (c' = c) by lia. subst. contradiction.
Qed.

(** The file a failed [toml_write] leaves behind: when camera [c] is the
    first whose block raises, the file holds the blocks of the cameras before
    it and no [metadata] table. *)
Theorem toml_write_partial (C : list string) (S D : list (vec A)) (K : list (mat A))
    (R T : list (vec A)) (c : nat) (bs : toml_doc A) :
  c < length C ->
  mapM (cam_block C S D K R T) (seq 0 c) = Some bs ->
  cam_block C S D K R T c = None ->
  toml_write C S D K R T = (bs, false) /\
  length bs = c /\
  lookup "metadata" bs = None.
Proof.
  intros Hc Hbs Hfail.
  assert (Hseq : seq 0 (length C) = (seq 0 c ++ c :: seq (c + 1) (length C - (c + 1)))%list).
  { replace (length C) with (c + (1 + (length C - (c + 1)))) at 1 by lia.
    rewrite seq_app. cbn. now rewrite Nat.add_1_r. }
  split; [|split].
  - unfold toml_write. rewrite Hseq, write_cams_app, (write_cams_mapM _ _ _ _ _ _ _ Hbs).
    cbn. rewrite Hfail. now rewrite app_nil_r.
  - apply mapM_length in Hbs. now rewrite Hbs, length_seq.
  - apply lookup_not_in. rewrite (mapM_cam_block_names _ _ _ _ _ _ _ Hbs).
    apply metadata_not_cam.
Qed.

(** The tables of a written file: [cam_01], [cam_02], ... by position, one
    for each name in [C], then [metadata]; no two tables share a name,
    whatever the camera names are. *)
Theorem toml_write_tables (C : list string) (S D : list (vec A)) (K : list (mat A))
    (R T : list (vec A)) (doc : toml_doc A) :
  toml_write C S D K R T = (doc, true) ->
  map fst doc
  = app (map (fun c => "cam_" ++ fmt_02d (c + 1)) (seq 0 (length C))) ["metadata"] /\
  NoDup (map fst doc).
Proof.
  unfold toml_write. intros E.
  destruct (write_cams C S D K R T (seq 0 (length C))) as [bs [|]] eqn:Ew;
    inversion E; subst; clear E.
  apply write_cams_ok in Ew.
  assert (Hn : map fst (bs ++ [metadata_block])%list
               = app (map (fun c => "cam_" ++ fmt_02d (c + 1)) (seq 0 (length C)))
                     ["metadata"]).
  { rewrite map_app, (mapM_cam_block_names _ _ _ _ _ _ _ Ew). reflexivity. }
  split; [exact Hn|]. rewrite Hn.
  apply NoDup_app.
  - apply cam_names_NoDup, seq_NoDup.
  - repeat constructor. intros [].
  - intros x Hx [<-|[]]. now apply (metadata_not_cam (seq 0 (length C))).
Qed.

End StoreMore.

Section StoreMore2.
Context {A : Type} `{Number A}.

Lemma nth_error_firstn_lt {X : Type} (l : list X) (n i : nat) :
  i < n -> nth_error (firstn n l) i = nth_error l i.
Proof.
  revert n i; induction l as [|x l IH]; intros [|n] [|i] Hi; cbn; try reflexivity; try lia.
  apply IH. lia.
Qed.

Lemma nth_error_prefixes {X : Type} (L : list (list X)) (n k c : nat) :
  c < n ->
  nth_error (map (firstn k) (firstn n L)) c = option_map (firstn k) (nth_error L c).
Proof.
  intros Hc. rewrite nth_error_map, nth_error_firstn_lt by assumption. reflexivity.
Qed.

Lemma cam_block_prefixes (C : list string) (S D : list (vec A)) (K : list (mat A))
    (R T : list (vec A)) (c : nat) :
  let n := length C in
  c < n ->
  cam_block C (map (firstn 2) (firstn n S)) (map (firstn 4) (firstn n D)) (firstn n K)
            (map (firstn 3) (firstn n R)) (map (firstn 3) (firstn n T)) c
  = cam_block C S D K R T c.
Proof.
  intros n Hc. unfold cam_block.
  rewrite !nth_error_prefixes, nth_error_firstn_lt by assumption.
  unfold vec, mat in *.
  destruct (nth_error C c) as [name|]; cbn [obind option_map]; [|reflexivity].
  destruct (nth_error S c) as [sz|]; cbn [obind option_map]; [|reflexivity].
  rewrite !nth_error_firstn_lt by lia.
  destruct (nth_error sz 0); cbn [obind option_map]; [|reflexivity].
  destruct (nth_error sz 1); cbn [obind option_map]; [|reflexivity].
  destruct (nth_error K c) as [k|]; cbn [obind option_map]; [|reflexivity].
  destruct (idx2 k 0 0); cbn [obind option_map]; [|reflexivity].
  destruct (idx2 k 0 2); cbn [obind option_map]; [|reflexivity].
  destruct (idx2 k 1 1); cbn [obind option_map]; [|reflexivity].
  destruct (idx2 k 1 2); cbn [obind option_map]; [|reflexivity].
  destruct (nth_error D c) as [d|]; cbn [obind option_map]; [|reflexivity].
  rewrite !nth_error_firstn_lt by lia.
  destruct (nth_error d 0); cbn [obind option_map]; [|reflexivity].
  destruct (nth_error d 1); cbn [obind option_map]; [|reflexivity].
  destruct (nth_error d 2); cbn [obind option_map]; [|reflexivity].
  destruct (nth_error d 3); cbn [obind option_map]; [|reflexivity].
  destruct (nth_error R c) as [r|]; cbn [obind option_map]; [|reflexivity].
  rewrite !nth_error_firstn_lt by lia.
  destruct (nth_error r 0); cbn [obind option_map]; [|reflexivity].
  destruct (nth_error r 1); cbn [obind option_map]; [|reflexivity].
  destruct (nth_error r 2); cbn [obind option_map]; [|reflexivity].
  destruct (nth_error T c) as [t|]; cbn [obind option_map]; [|reflexivity].
  rewrite !nth_error_firstn_lt by lia. reflexivity.
Qed.

Lemma write_cams_ext (C C' : list string) (S S' D D' : list (vec A)) (K K' : list (mat A))
    (R R' T T' : list (vec A)) (cs : list nat) :
  Forall (fun c => cam_block C' S' D' K' R' T' c = cam_block C S D K R T c) cs ->
  write_cams C' S' D' K' R' T' cs = write_cams C S D K R T cs.
Proof.
  induction 1 as [|c cs Hc _ IH]; cbn; [reflexivity|]. now rewrite Hc, IH.
Qed.

(** What [toml_write] reads of its lists: the first [len(C)] entries of
    each, and of an entry the first two numbers of a size, the first four of
    the distortion coefficients and the first three of a rotation and of a
    translation.  Whatever comes after them (the fifth coefficient
    [cv2.calibrateCamera] returns, say) does not reach the file. *)
Theorem toml_write_reads_prefixes (C : list string) (S D : list (vec A))
    (K : list (mat A)) (R T : list (vec A)) :
  let n := length C in
  toml_write C (map (firstn 2) (firstn n S)) (map (firstn 4) (firstn n D)) (firstn n K)
             (map (firstn 3) (firstn n R)) (map (firstn 3) (firstn n T))
  = toml_write C S D K R T.
Proof.
  intros n. unfold toml_write.
  rewrite (@write_cams_ext C C S _ D _ K _ R _ T _ (seq 0 (length C))); [reflexivity|].
  apply Forall_forall. intros c Hc. apply in_seq in Hc.
  apply cam_block_prefixes. lia.
Qed.


End StoreMore2.

Section StoreWitnesses.
Local Open Scope float_scope.

Lemma toml_write_partial_witness :
  toml_write ["cam"%string; "cam2"%string] [[1280; 720]; [1280; 720]] short_D
             [K_full; K_full] [[0; 0; 0]; [0; 0; 0]] [[0; 0; 5]; [0; 0; 5]]
  = ([block_full], false) /\
  length [block_full] = 1%nat /\
  lookup "metadata" [block_full] = None.
Proof.
  exact (@toml_write_partial float _
           ["cam"%string; "cam2"%string] [[1280; 720]; [1280; 720]] short_D
           [K_full; K_full] [[0; 0; 0]; [0; 0; 0]] [[0; 0; 5]; [0; 0; 5]]
           1 [block_full] (le_n 2) eq_refl eq_refl).
Defined.

Lemma toml_write_tables_witness :
  map fst (fst (write_calibration (cal_one [0.7])))
  = ["cam_01"%string; "metadata"%string] /\
  NoDup (map fst (fst (write_calibration (cal_one [0.7])))).
Proof.
  exact (@toml_write_tables float _ ["cam"%string] [[1280; 720]] [[0.1; 0.01; 0; 0]]
           [K_cam] [[0; 0; 0]] [[0; 0; 5]]
           (fst (write_calibration (cal_one [0.7]))) eq_refl).
Defined.


End StoreWitnesses.

(** ** More on the board calibration *)

Section BoardMore.
Context {A : Type} `{Number A}.
Variable w : world (A := A).

Lemma bind_run_inr {X Y : Type} (m : run X) (k : X -> run Y) (l : list string) (y : Y) :
  bind_run m k = (l, inr y) ->
  exists l1 x l2, m = (l1, inr x) /\ k x = (l2, inr y) /\ l = (l1 ++ l2)%list.
Proof.
  destruct m as [l1 [e|x]]; cbn; [discriminate|].
  destruct (k x) as [l2 r] eqn:Ek. intros E. inversion E; subst.
  now exists l1, x, l2.
Qed.

Lemma lift_lib_inr {X : Type} (o : option X) (l : list string) (x : X) :
  lift_lib o = (l, inr x) -> o = Some x /\ l = [].
Proof. destruct o; cbn; intros E; inversion E; auto. Qed.

Lemma lift_index_inr {X : Type} (o : option X) (l : list string) (x : X) :
  lift_index o = (l, inr x) -> o = Some x /\ l = [].
Proof. destruct o; cbn; intros E; inversion E; auto. Qed.

(** What a turn of the loop of [calibrate_intrinsics] appends when it ends
    without an exception. *)
Lemma intrinsics_cam_returned (calib_dir : string) (cfg : intrinsics_config (A := A))
    (img : option string) (i : nat) (cam : string) (l : list string)
    (img' : option string) (ret_cam : A) (name : string) (size d : vec A) (k : mat A) :
  intrinsics_cam w calib_dir cfg img i cam = (l, inr (img', (ret_cam, name, size, d, k))) ->
  name = "cam_" ++ fmt_02d (i + 1) /\ length size = 2.
Proof.
  unfold intrinsics_cam. cbv zeta. intros E.
  apply bind_run_inr in E. destruct E as (l1 & [] & l2 & _ & E & _).
  destruct (glob w _) as [|f fs].
  { apply bind_run_inr in E. destruct E as (? & [] & ? & _ & E & _). discriminate. }
  destruct (find_all_corners _ _ _ _ _ _ _) as [[imgpoints objpoints] img_path].
  apply bind_run_inr in E. destruct E as (? & [] & ? & _ & E & _).
  apply bind_run_inr in E. destruct E as (? & p & ? & _ & E & _).
  apply bind_run_inr in E. destruct E as (? & [h wd] & ? & _ & E & _).
  apply bind_run_inr in E. destruct E as (? & [[r m] dist] & ? & _ & E & _).
  apply bind_run_inr in E. destruct E as (? & d0 & ? & _ & E & _).
  inversion E; subst. split; reflexivity.
Qed.

Lemma intrinsics_loop_returned (calib_dir : string) (cfg : intrinsics_config (A := A))
    (cams : list (nat * string)) (img : option string) (acc : calibration (A := A))
    (l : list string) (img' : option string) (cal : calibration (A := A)) :
  intrinsics_loop w calib_dir cfg cams img acc = (l, inr (img', cal)) ->
  cal_C cal = app (cal_C acc) (map (fun it => "cam_" ++ fmt_02d (fst it + 1)) cams) /\
  cal_R cal = (cal_R acc ++ repeat [nlit 0; nlit 0; nlit 0] (length cams))%list /\
  cal_T cal = (cal_T acc ++ repeat [nlit 0; nlit 0; nlit 0] (length cams))%list /\
  length (cal_ret cal) = length (cal_ret acc) + length cams /\
  length (cal_S cal) = length (cal_S acc) + length cams /\
  length (cal_D cal) = length (cal_D acc) + length cams /\
  length (cal_K cal) = length (cal_K acc) + length cams /\
  (Forall (fun s => length s = 2) (cal_S acc) -> Forall (fun s => length s = 2) (cal_S cal)).
Proof.
  revert img acc l; induction cams as [|[i cam] cams IH]; intros img acc l E.
  - cbn in E. inversion E; subst. cbn. rewrite !app_nil_r, !Nat.add_0_r. repeat split. auto.
  - cbn [intrinsics_loop] in E.
    apply bind_run_inr in E.
    destruct E as (l1 & [img1 [[[[ret_cam name] size] d] k]] & l2 & Ecam & E & _).
    apply intrinsics_cam_returned in Ecam. destruct Ecam as [-> Hsize].
    apply IH in E. cbn [cal_ret cal_C cal_S cal_D cal_K cal_R cal_T] in E.
    destruct E as (EC & ER & ET & Lr & LS & LD & LK & HS).
    rewrite EC, ER, ET, Lr, LS, LD, LK, !length_app. cbn [length map repeat fst].
    rewrite <- !app_assoc. cbn [app].
    repeat split; try lia.
    intros Hacc. apply HS. apply Forall_app. split; [assumption|]. now constructor.
Qed.

(** A [calibrate_intrinsics] that returns gives one entry per camera folder
    in each of its seven lists.  The cameras are named [cam_01], [cam_02],
    ... by the position of their folder, not by its name; every size has two
    numbers and every rotation and translation is (0, 0, 0). *)
Theorem calibrate_intrinsics_lists (calib_dir : string) (cfg : intrinsics_config (A := A))
    (dirs : list string) (l : list string) (cal : calibration (A := A)) :
  walk_dirs w (path_join calib_dir "intrinsics") = Some dirs ->
  calibrate_intrinsics w calib_dir cfg = (l, inr cal) ->
  let n := length dirs in
  cal_C cal = map (fun i => "cam_" ++ fmt_02d (i + 1)) (seq 0 n) /\
  cal_R cal = repeat [nlit 0; nlit 0; nlit 0] n /\
  cal_T cal = repeat [nlit 0; nlit 0; nlit 0] n /\
  length (cal_ret cal) = n /\ length (cal_S cal) = n /\
  length (cal_D cal) = n /\ length (cal_K cal) = n /\
  Forall (fun s => length s = 2) (cal_S cal).
Proof.
  intros Hw E n. unfold calibrate_intrinsics in E. cbv zeta in E. rewrite Hw in E.
  apply bind_run_inr in E. destruct E as (l1 & [img' cal'] & l2 & E & Eret & _).
  inversion Eret; subst cal'; clear Eret.
  apply intrinsics_loop_returned in E. cbn in E.
  destruct E as (EC & ER & ET & Lr & LS & LD & LK & HS).
  rewrite length_enumerate in *. fold n in ER, ET, Lr, LS, LD, LK.
  rewrite EC, ER, ET.
  split; [unfold n; rewrite <- map_fst_enumerate, map_map; reflexivity|].
  repeat split; auto.
Qed.

Lemma extrinsics_cam_returned (calib_dir : string) (cfg : extrinsics_config (A := A))
    (K : list (mat A)) (D : list (vec A)) (i : nat) (cam : string) (l : list string)
    (x : A * vec A * vec A) :
  extrinsics_cam w calib_dir cfg K D i cam = (l, inr x) ->
  i < length K /\ i < length D.
Proof.
  unfold extrinsics_cam. cbv zeta. intros E.
  apply bind_run_inr in E. destruct E as (l1 & [] & l2 & _ & E & _).
  destruct (glob w _) as [|f fs].
  { apply bind_run_inr in E. destruct E as (? & [] & ? & _ & E & _). discriminate. }
  apply bind_run_inr in E. destruct E as (? & f0 & ? & _ & E & _).
  apply bind_run_inr in E. destruct E as (? & shape & ? & _ & E & _).
  apply bind_run_inr in E. destruct E as (? & found & ? & _ & E & _).
  apply bind_run_inr in E. destruct E as (? & mtx & ? & Emtx & E & _).
  apply bind_run_inr in E. destruct E as (? & dist & ? & Edist & _ & _).
  apply lift_index_inr in Emtx. apply lift_index_inr in Edist.
  split; apply nth_error_Some; [destruct Emtx as [-> _]|destruct Edist as [-> _]];
    discriminate.
Qed.

Lemma extrinsics_loop_returned (calib_dir : string) (cfg : extrinsics_config (A := A))
    (K : list (mat A)) (D : list (vec A)) (cams : list (nat * string))
    (ret : list A) (R T : list (vec A)) (l : list string)
    (ret' : list A) (R' T' : list (vec A)) :
  extrinsics_loop w calib_dir cfg K D cams ret R T = (l, inr (ret', R', T')) ->
  length ret' = length ret + length cams /\
  length R' = length R + length cams /\
  length T' = length T + length cams /\
  Forall (fun it => fst it < length K /\ fst it < length D) cams.
Proof.
  revert ret R T l; induction cams as [|[i cam] cams IH]; intros ret R T l E.
  - cbn in E. inversion E; subst. rewrite !Nat.add_0_r. repeat split. constructor.
  - cbn [extrinsics_loop] in E.
    apply bind_run_inr in E. destruct E as (l1 & [[rms r] t] & l2 & Ecam & E & _).
    apply extrinsics_cam_returned in Ecam.
    apply IH in E. destruct E as (Lr & LR & LT & HF).
    rewrite Lr, LR, LT, !length_app. cbn [length].
    repeat split; try lia. constructor; assumption.
Qed.

(** A [calibrate_extrinsics] that returns hands [C], [S], [D] and [K] back
    as it got them and gives one error, one rotation and one translation per
    folder of the extrinsics directory, of which there are no more than there
    are matrices in [K] and coefficient lists in [D]: the folder at position
    [i] is calibrated with [K[i]] and [D[i]]. *)
Theorem calibrate_extrinsics_lists (calib_dir : string) (cfg : extrinsics_config (A := A))
    (C : list string) (S : list (vec A)) (K : list (mat A)) (D : list (vec A))
    (dirs : list string) (l : list string) (cal : calibration (A := A)) :
  walk_dirs w (path_join calib_dir "extrinsics") = Some dirs ->
  calibrate_extrinsics w calib_dir cfg C S K D = (l, inr cal) ->
  cal_C cal = C /\ cal_S cal = S /\ cal_D cal = D /\ cal_K cal = K /\
  length (cal_ret cal) = length dirs /\
  length (cal_R cal) = length dirs /\
  length (cal_T cal) = length dirs /\
  length dirs <= length K /\ length dirs <= length D.
Proof.
  intros Hw E. unfold calibrate_extrinsics in E. cbv zeta in E. rewrite Hw in E.
  apply bind_run_inr in E. destruct E as (l1 & [[ret' R'] T'] & l2 & E & Eret & _).
  inversion Eret; subst cal; clear Eret. cbn.
  apply extrinsics_loop_returned in E. destruct E as (Lr & LR & LT & HF).
  rewrite length_enumerate in *. cbn in Lr, LR, LT.
  assert (Hall : forall i, i < length dirs -> i < length K /\ i < length D).
  { intros i Hi.
    assert (Hin : In i (map fst (enumerate dirs)))
      by (rewrite map_fst_enumerate; apply in_seq; lia).
    apply in_map_iff in Hin. destruct Hin as (it & <- & Hit).
    rewrite Forall_forall in HF. now apply HF. }
  repeat split; try assumption.
  - destruct dirs as [|d dirs]; cbn [length]; [lia|].
    destruct (Hall (length dirs)); cbn [length]; lia.
  - destruct dirs as [|d dirs]; cbn [length]; [lia|].
    destruct (Hall (length dirs)); cbn [length]; lia.
Qed.

End BoardMore.

Section BoardWitnesses.
Local Open Scope float_scope.

Lemma calibrate_intrinsics_lists_witness :
  exists l cal,
    calibrate_intrinsics (test_world ["cam1"%string]) "calib" test_intrinsics = (l, inr cal) /\
    cal_C cal = ["cam_01"%string] /\
    cal_R cal = [[0; 0; 0]] /\ cal_T cal = [[0; 0; 0]] /\
    length (cal_ret cal) = 1%nat /\ length (cal_S cal) = 1%nat /\
    length (cal_D cal) = 1%nat /\ length (cal_K cal) = 1%nat /\
    Forall (fun s => length s = 2%nat) (cal_S cal).
Proof.
  eexists _, _. split; [vm_compute; reflexivity|].
  exact (@calibrate_intrinsics_lists float _ (test_world ["cam1"%string]) "calib"
           test_intrinsics ["cam1"%string] _ _ eq_refl eq_refl).
Defined.

Lemma calibrate_extrinsics_lists_witness :
  exists l cal,
    calibrate_extrinsics (test_world ["cam1"%string]) "calib" scene_config
      ["cam_01"%string] [[1280; 720]] [identity3] [[0; 0; 0; 0]] = (l, inr cal) /\
    cal_C cal = ["cam_01"%string] /\ cal_S cal = [[1280; 720]] /\
    cal_D cal = [[0; 0; 0; 0]] /\ cal_K cal = [identity3] /\
    length (cal_ret cal) = 1%nat /\ length (cal_R cal) = 1%nat /\
    length (cal_T cal) = 1%nat /\
    (1 <= length [identity3 (A := float)])%nat /\
    (1 <= length [[0; 0; 0; 0]])%nat.
Proof.
  eexists _, _. split; [vm_compute; reflexivity|].
  exact (@calibrate_extrinsics_lists float _ (test_world ["cam1"%string]) "calib"
           scene_config ["cam_01"%string] [[1280; 720]] [identity3] [[0; 0; 0; 0]]
           ["cam1"%string] _ _ eq_refl eq_refl).
Defined.

End BoardWitnesses.

(** ** Frame extraction *)

Lemma float_multiple_0 (f : float) :
  is_zero f = false -> is_nan f = false -> float_multiple 0 f = true.
Proof.
  unfold is_zero, is_nan, float_multiple.
  rewrite !FloatAxioms.eqb_spec.
  change (Prim2SF PrimFloat.zero) with (S754_zero false).
  destruct (Prim2SF f) as [s|s| |s m e]; try destruct s; cbn; try discriminate; try reflexivity;
    intros _ _; destruct (0 <=? e)%Z; reflexivity.
Qed.

Lemma usable_period_frame_0 (p : pynum) :
  usable_period p -> py_mod_is_zero 0 p = Some true.
Proof.
  destruct p as [z|f]; cbn.
  - intros Hz. apply Z.eqb_neq in Hz. now rewrite Hz.
  - intros [Hz Hn]. rewrite Hz. now rewrite float_multiple_0.
Qed.

Lemma zero_times_finite (f : float) :
  is_finite f = true -> is_zero (PrimFloat.zero * f)%float = true.
Proof.
  unfold is_finite, is_nan, is_infinity, is_zero.
  rewrite !FloatAxioms.eqb_spec, FloatAxioms.abs_spec, FloatAxioms.mul_spec.
  change (Prim2SF PrimFloat.zero) with (S754_zero false).
  change (Prim2SF infinity) with (S754_infinity false).
  destruct (Prim2SF f) as [s|s| |s m e]; try destruct s; cbn; try discriminate; reflexivity.
Qed.

Section ExtractionFacts.
Variable F : Type.

Lemma extract_loop_int (root : string) (p : Z) (frames : list F) (k : nat)
    (written : list (string * F)) :
  p <> 0%Z ->
  extract_loop root (PyInt p) k frames written
  = (app written
       (map (fun kf => (frame_path root (fst kf), snd kf))
          (filter (fun kf => (Z.of_nat (fst kf) mod p =? 0)%Z)
             (combine (seq k (length frames)) frames))),
     Returned).
Proof.
  intros Hp. apply Z.eqb_neq in Hp.
  revert k written; induction frames as [|frame rest IH]; intros k written; cbn.
  - now rewrite app_nil_r.
  - rewrite Hp. destruct (Z.of_nat k mod p =? 0)%Z; rewrite IH; cbn.
    + now rewrite <- app_assoc.
    + reflexivity.
Qed.

(** With an integer number of seconds and a frame rate that make a period
    [fps * extract_every_N_sec] other than 0, [extract_frames] reads the
    video to its end and writes the frames whose number is a multiple of the
    period, frame 0 first, each to the path made of its number. *)
Theorem extract_frames_every_period (path_exists : string -> bool) (cap : video F)
    (root : string) (N : Z) (overwrite_extraction : bool) :
  negb (path_exists (root ++ "_00000.png")) || overwrite_extraction = true ->
  isOpened cap = true ->
  (CAP_PROP_FPS cap * N <> 0)%Z ->
  extract_frames path_exists cap root (PyInt N) overwrite_extraction
  = {| ext_log := ["Extracting frames..."];
       ext_written :=
         map (fun kf => (frame_path root (fst kf), snd kf))
           (filter (fun kf => (Z.of_nat (fst kf) mod (CAP_PROP_FPS cap * N) =? 0)%Z)
              (enumerate (video_frames cap)));
       ext_end := Returned |}.
Proof.
  intros Hrun Hopen Hp. unfold extract_frames. rewrite Hrun, Hopen. cbn [py_mul_int].
  now rewrite extract_loop_int.
Qed.

Lemma extract_loop_first (root : string) (p : pynum) (frame : F) (rest : list F) :
  py_mod_is_zero 0 p = Some true ->
  exists more, fst (extract_loop root p 0 (frame :: rest) [])
               = (root ++ "_00000.png", frame) :: more.
Proof.
  intros H0. cbn [extract_loop Z.of_nat]. rewrite H0. cbn [app].
  assert (G : forall k (fs : list F) w, exists more,
             fst (extract_loop root p k fs w) = (w ++ more)%list).
  { intros k fs; revert k; induction fs as [|f fs IH]; intros k w; cbn.
    - exists []. now rewrite app_nil_r.
    - destruct (py_mod_is_zero (Z.of_nat k) p) as [[|]|].
      + destruct (IH (S k) (w ++ [(frame_path root k, f)])%list) as [more ->].
        exists ((frame_path root k, f) :: more). now rewrite <- app_assoc.
      + apply IH.
      + exists []. now rewrite app_nil_r. }
  destruct (G 1%nat rest [(frame_path root 0, frame)]) as [more ->].
  exists more. reflexivity.
Qed.

(** Extraction is done once: after a call on a video with a frame and a
    usable period, a second call without [overwrite_extraction] logs nothing
    and writes nothing; a first call that opened the video has left the
    picture of frame 0 on disk. *)
Theorem extract_frames_once (path_exists : string -> bool) (cap : video F)
    (root : string) (N : pynum) (overwrite_extraction : bool) (frame : F) (rest : list F) :
  video_frames cap = frame :: rest ->
  usable_period (py_mul_int (CAP_PROP_FPS cap) N) ->
  let first := extract_frames path_exists cap root N overwrite_extraction in
  extract_frames (exists_after path_exists (ext_written first)) cap root N false
  = nothing_extracted F.
Proof.
  intros Hfr Hp first. apply usable_period_frame_0 in Hp.
  destruct (isOpened cap) eqn:Hopen.
  2:{ unfold extract_frames. rewrite Hopen. now destruct (_ || _). }
  destruct (path_exists (root ++ "_00000.png")) eqn:Hex.
  { unfold extract_frames at 1, exists_after. now rewrite Hex. }
  unfold extract_frames at 1, exists_after. rewrite Hex. cbn [orb].
  assert (Hin : existsb (String.eqb (root ++ "_00000.png")) (map fst (ext_written first))
                = true).
  { unfold first, extract_frames. rewrite Hex, Hopen. cbn [negb orb].
    destruct (@extract_loop_first root _ frame rest Hp) as [more Hmore].
    rewrite Hfr.
    destruct (extract_loop root _ 0 (frame :: rest) []) as [written e].
    cbn [fst] in Hmore. subst written. cbn. now rewrite String.eqb_refl. }
  now rewrite Hin.
Qed.

(** A video whose frame rate reads as 0 cannot be extracted: whatever finite
    number of seconds is asked for, the test of the first frame divides by
    zero.  The line logged before the loop is all the call leaves. *)
Theorem extract_frames_zero_rate (path_exists : string -> bool) (cap : video F)
    (root : string) (N : pynum) (overwrite_extraction : bool) (frame : F) (rest : list F) :
  negb (path_exists (root ++ "_00000.png")) || overwrite_extraction = true ->
  isOpened cap = true ->
  CAP_PROP_FPS cap = 0%Z ->
  py_finite N ->
  video_frames cap = frame :: rest ->
  extract_frames path_exists cap root N overwrite_extraction
  = {| ext_log := ["Extracting frames..."]; ext_written := [];
       ext_end := ZeroDivisionError |}.
Proof.
  intros Hrun Hopen Hfps HN Hfr. unfold extract_frames.
  rewrite Hrun, Hopen, Hfps, Hfr.
  destruct N as [z|f].
  - reflexivity.
  - cbn [py_mul_int extract_loop py_mod_is_zero].
    change (float_of_Z 0) with PrimFloat.zero.
    now rewrite (zero_times_finite f HN).
Qed.

End ExtractionFacts.

(** ** The order of the image files *)

Lemma numbers_compare_eq (k l : list N) : numbers_compare k l = Eq <-> k = l.
Proof.
  revert l; induction k as [|a k IH]; intros [|b l]; cbn; try (split; congruence).
  destruct (N.compare_spec a b) as [->|Hlt|Hgt].
  - rewrite IH. split; congruence.
  - split; [discriminate|]. intros E; inversion E; subst. lia.
  - split; [discriminate|]. intros E; inversion E; subst. lia.
Qed.

Lemma numbers_compare_antisym (k l : list N) :
  numbers_compare l k = CompOpp (numbers_compare k l).
Proof.
  revert l; induction k as [|a k IH]; intros [|b l]; cbn; try reflexivity.
  rewrite (N.compare_antisym a b).
  destruct (N.compare a b); cbn; auto.
Qed.

Lemma numbers_compare_trans (k l m : list N) :
  numbers_compare k l <> Gt -> numbers_compare l m <> Gt -> numbers_compare k m <> Gt.
Proof.
  revert l m; induction k as [|a k IH]; intros [|b l] [|c m]; cbn; try congruence.
  destruct (N.compare_spec a b) as [->|Hab|Hab]; try congruence.
  - destruct (N.compare_spec b c) as [->|Hbc|Hbc]; try congruence. apply IH.
  - intros _. destruct (N.compare_spec b c) as [->|Hbc|Hbc]; try congruence.
    + intros _. destruct (N.compare_spec a c); try congruence; lia.
    + intros _. destruct (N.compare_spec a c); try congruence; lia.
Qed.

Lemma numbers_leb_total (a b : string) : numbers_leb a b = false -> numbers_leb b a = true.
Proof.
  unfold numbers_leb. rewrite (numbers_compare_antisym (numbers_key a) (numbers_key b)).
  destruct (numbers_compare (numbers_key a) (numbers_key b)); cbn; congruence.
Qed.

Lemma numbers_leb_trans (a b c : string) :
  numbers_leb a b = true -> numbers_leb b c = true -> numbers_leb a c = true.
Proof.
  unfold numbers_leb. intros Hab Hbc.
  pose proof (@numbers_compare_trans (numbers_key a) (numbers_key b) (numbers_key c)) as Ht.
  destruct (numbers_compare (numbers_key a) (numbers_key b)); try discriminate;
  destruct (numbers_compare (numbers_key b) (numbers_key c)); try discriminate;
  destruct (numbers_compare (numbers_key a) (numbers_key c)); try reflexivity;
  exfalso; apply Ht; congruence.
Qed.

Lemma insert_by_numbers_perm (x : string) (l : list string) :
  Permutation (insert_by_numbers x l) (x :: l).
Proof.
  induction l as [|y l IH]; cbn; [reflexivity|].
  destruct (numbers_leb x y); [reflexivity|].
  rewrite IH. apply perm_swap.
Qed.

Lemma sort_by_numbers_perm (l : list string) : Permutation (sort_by_numbers l) l.
Proof.
  induction l as [|x l IH]; cbn; [reflexivity|].
  rewrite insert_by_numbers_perm. now constructor.
Qed.

Lemma insert_by_numbers_in_order (x : string) (l : list string) :
  in_order l -> in_order (insert_by_numbers x l).
Proof.
  unfold in_order. induction 1 as [|y l Hl IH Hy]; cbn.
  - repeat constructor.
  - destruct (numbers_leb x y) eqn:E.
    + constructor; [now constructor|]. constructor; [assumption|].
      eapply Forall_impl; [|exact Hy]. intros z Hz. eapply numbers_leb_trans; eassumption.
    + constructor; [assumption|].
      apply numbers_leb_total in E.
      assert (Hxl : Forall (fun b => numbers_leb y b = true) (x :: l))
        by now constructor.
      rewrite Forall_forall in *. intros z Hz. apply Hxl.
      apply (Permutation_in z (insert_by_numbers_perm x l) Hz).
Qed.

Lemma sort_by_numbers_in_order (l : list string) : in_order (sort_by_numbers l).
Proof.
  induction l as [|x l IH]; cbn; [constructor|]. now apply insert_by_numbers_in_order.
Qed.

Lemma with_numbers_insert (k : list N) (x : string) (l : list string) :
  with_numbers k (insert_by_numbers x l) = with_numbers k (x :: l).
Proof.
  induction l as [|y l IH]; [reflexivity|]. cbn [insert_by_numbers].
  destruct (numbers_leb x y) eqn:E; [reflexivity|].
  unfold with_numbers in *. cbn [filter] in *. rewrite IH.
  destruct (numbers_compare (numbers_key x) k) eqn:Ex; try reflexivity.
  destruct (numbers_compare (numbers_key y) k) eqn:Ey; try reflexivity.
  apply numbers_compare_eq in Ex, Ey. unfold numbers_leb in E.
  rewrite Ex, Ey in E.
  now rewrite (proj2 (numbers_compare_eq k k) eq_refl) in E.
Qed.

(** The sort of the image files: no file is lost or added, the files come
    out by the numbers in their paths in Python's order on lists, and files
    with the same numbers stay in the order [glob] listed them. *)
Theorem sort_by_numbers_stable (l : list string) :
  Permutation (sort_by_numbers l) l /\
  StronglySorted (fun a b => numbers_compare (numbers_key a) (numbers_key b) <> Gt)
    (sort_by_numbers l) /\
  forall k, with_numbers k (sort_by_numbers l) = with_numbers k l.
Proof.
  split; [apply sort_by_numbers_perm|]. split.
  - pose proof (sort_by_numbers_in_order l) as Hs. unfold in_order in Hs.
    induction Hs as [|x m Hm IH Hx]; constructor; [assumption|].
    eapply Forall_impl; [|exact Hx]. cbn beta. unfold numbers_leb. intros y Hy.
    destruct (numbers_compare (numbers_key x) (numbers_key y)); congruence.
  - intros k. induction l as [|x l IH]; [reflexivity|]. cbn [sort_by_numbers fold_right].
    rewrite with_numbers_insert. unfold with_numbers in *. cbn [filter].
    fold (sort_by_numbers l). now rewrite IH.
Qed.

Lemma chars_app (a b : string) :
  list_ascii_of_string (a ++ b)
  = (list_ascii_of_string a ++ list_ascii_of_string b)%list.
Proof. induction a as [|c a IH]; cbn; [reflexivity|]. now rewrite IH. Qed.

Lemma chars_of_list (l : list ascii) :
  list_ascii_of_string (string_of_list_ascii l) = l.
Proof. apply list_ascii_of_string_of_list_ascii. Qed.

Lemma numbers_from_split (pre : list ascii) (c : ascii) (t : list ascii) (cur : option N) :
  digit_of c = None ->
  numbers_from (pre ++ c :: t) cur = (numbers_from pre cur ++ numbers_from t None)%list.
Proof.
  intros Hc. revert cur; induction pre as [|a pre IH]; intros cur; cbn.
  - rewrite Hc. now destruct cur.
  - destruct (digit_of a), cur; cbn; now rewrite IH.
Qed.

Lemma numbers_from_run (ds t : list ascii) (n : N) :
  Forall is_digit ds -> no_digit_ahead t ->
  numbers_from (ds ++ t) (Some n) = digits_value ds n :: numbers_from t None.
Proof.
  intros Hds Ht. revert n; induction Hds as [|c ds Hc _ IH]; intros n; cbn.
  - destruct t as [|c t]; [reflexivity|]. cbn in Ht. cbn. now rewrite Ht.
  - unfold is_digit in Hc. destruct (digit_of c); [|congruence]. apply IH.
Qed.

Lemma numbers_from_run_start (ds t : list ascii) :
  Forall is_digit ds -> ds <> [] -> no_digit_ahead t ->
  numbers_from (ds ++ t) None = digits_value ds 0 :: numbers_from t None.
Proof.
  intros Hds Hne Ht. destruct ds as [|c ds]; [congruence|].
  inversion Hds as [|? ? Hc Hds']; subst. cbn. unfold is_digit in Hc.
  destruct (digit_of c) as [d|]; [|congruence].
  now rewrite numbers_from_run.
Qed.

Lemma uint_digits (d : Decimal.uint) (a : nat) :
  Forall is_digit (list_ascii_of_string (NilEmpty.string_of_uint d)) /\
  digits_value (list_ascii_of_string (NilEmpty.string_of_uint d)) (N.of_nat a)
  = N.of_nat (Nat.of_uint_acc d a).
Proof.
  revert a; induction d as [|d IHd|d IHd|d IHd|d IHd|d IHd|d IHd|d IHd|d IHd|d IHd|d IHd];
    intros a.
  1: now split; [constructor|].
  all: cbn [NilEmpty.string_of_uint list_ascii_of_string].
  all: split; [constructor; [unfold is_digit; cbn; discriminate|apply (proj1 (IHd 0))]|].
  all: cbn [digits_value Nat.of_uint_acc].
  all: match goal with |- context [digit_of ?c] =>
         let v := eval vm_compute in (digit_of c) in change (digit_of c) with v end.
  all: cbv iota beta.
  all: match goal with |- digits_value _ ?m = N.of_nat (Nat.of_uint_acc _ ?b) =>
         replace m with (N.of_nat b) by (rewrite ?Nat.tail_mul_spec; lia) end.
  all: apply (proj2 (IHd _)).
Qed.

Lemma str_of_nat_digits (k : nat) :
  Forall is_digit (list_ascii_of_string (str_of_nat k)) /\
  digits_value (list_ascii_of_string (str_of_nat k)) 0 = N.of_nat k.
Proof.
  unfold str_of_nat. destruct (uint_digits (Nat.to_uint k) 0) as [Hd Hv].
  split; [assumption|]. cbn [N.of_nat] in Hv. rewrite Hv.
  change (Nat.of_uint_acc (Nat.to_uint k) 0) with (Nat.of_uint (Nat.to_uint k)).
  now rewrite DecimalNat.Unsigned.of_to.
Qed.
Lemma str_of_nat_nonempty (k : nat) : list_ascii_of_string (str_of_nat k) <> [].
Proof.
  destruct (str_of_nat_digits k) as [_ Hv]. intros E. rewrite E in Hv. cbn in Hv.
  assert (k = 0%nat) by lia. subst k. discriminate E.
Qed.

Lemma digits_value_zeros (j : nat) (r : list ascii) :
  digits_value (repeat "0"%char j ++ r) 0 = digits_value r 0.
Proof. induction j as [|j IH]; cbn; [reflexivity|]. exact IH. Qed.

Lemma zfill_digits (width k : nat) :
  let ds := list_ascii_of_string (zfill width (str_of_nat k)) in
  Forall is_digit ds /\ ds <> [] /\ digits_value ds 0 = N.of_nat k.
Proof.
  cbv zeta. unfold zfill. rewrite chars_app, chars_of_list.
  destruct (str_of_nat_digits k) as [Hd Hv]. split; [|split].
  - apply Forall_app. split; [|assumption].
    apply Forall_forall. intros c Hc. apply repeat_spec in Hc. subst c.
    unfold is_digit. cbn. discriminate.
  - intros E. apply app_eq_nil in E. now apply (str_of_nat_nonempty k).
  - now rewrite digits_value_zeros.
Qed.

Lemma numbers_key_frame_path (root : string) (k : nat) :
  numbers_key (frame_path root k) = (numbers_key root ++ [N.of_nat k])%list.
Proof.
  unfold numbers_key, frame_path. rewrite chars_app. cbn [append list_ascii_of_string].
  rewrite numbers_from_split by reflexivity. f_equal.
  rewrite chars_app.
  destruct (zfill_digits 5 k) as (Hd & Hne & Hv).
  rewrite numbers_from_run_start; [|assumption|assumption|reflexivity].
  now rewrite Hv.
Qed.

Lemma numbers_compare_app (p : list N) (a b : N) :
  numbers_compare (p ++ [a]) (p ++ [b]) = N.compare a b.
Proof.
  induction p as [|x p IH]; cbn.
  - now destruct (N.compare a b).
  - now rewrite N.compare_refl.
Qed.

Lemma numbers_leb_frame_path (root : string) (j k : nat) :
  numbers_leb (frame_path root j) (frame_path root k) = Nat.leb j k.
Proof.
  unfold numbers_leb. rewrite !numbers_key_frame_path, numbers_compare_app.
  destruct (N.compare_spec (N.of_nat j) (N.of_nat k)), (Nat.leb_spec j k);
    try reflexivity; lia.
Qed.

Lemma frame_paths_in_order (root : string) (ks : list nat) :
  StronglySorted lt ks -> in_order (map (frame_path root) ks).
Proof.
  unfold in_order. induction 1 as [|k ks Hs IH Hk]; cbn; constructor; [assumption|].
  apply Forall_map. eapply Forall_impl; [|exact Hk]. cbn beta. intros j Hj.
  rewrite numbers_leb_frame_path. apply Nat.leb_le. lia.
Qed.

Lemma in_order_unique (l1 l2 : list string) :
  in_order l1 -> in_order l2 -> Permutation l1 l2 ->
  (forall a b, In a l1 -> In b l1 ->
               numbers_leb a b = true -> numbers_leb b a = true -> a = b) ->
  l1 = l2.
Proof.
  unfold in_order. intros H1; revert l2; induction H1 as [|a l1 Hs IH Ha]; intros l2 H2 Hp Hanti.
  - now apply Permutation_nil in Hp.
  - destruct H2 as [|b l2 Hs2 Hb].
    { symmetry in Hp. now apply Permutation_nil in Hp. }
    assert (a = b) as <-.
    { assert (Ia : In a (b :: l2)) by (apply (Permutation_in a Hp); now left).
      assert (Ib : In b (a :: l1))
        by (apply (Permutation_in b (Permutation_sym Hp)); now left).
      destruct Ia as [->|Ia]; [reflexivity|].
      destruct Ib as [->|Ib]; [reflexivity|].
      rewrite Forall_forall in Ha, Hb.
      apply Hanti; [now left|now right|now apply Ha|now apply Hb]. }
    f_equal. apply IH; [assumption|now apply Permutation_cons_inv in Hp|].
    intros x y Hx Hy. apply Hanti; now right.
Qed.

Section FramesInOrder.
Variable F : Type.

Lemma extract_loop_paths (root : string) (p : pynum) (frames : list F) (k : nat)
    (written : list (string * F)) :
  exists ks,
    StronglySorted lt ks /\ Forall (fun j => k <= j) ks /\
    map fst (fst (extract_loop root p k frames written))
    = app (map fst written) (map (frame_path root) ks).
Proof.
  revert k written; induction frames as [|f frames IH]; intros k written; cbn.
  - exists []. repeat split; try constructor. now rewrite app_nil_r.
  - destruct (py_mod_is_zero (Z.of_nat k) p) as [[|]|].
    + destruct (IH (S k) (written ++ [(frame_path root k, f)])%list)
        as (ks & Hs & Hge & E).
      exists (k :: ks). split; [|split].
      * constructor; [assumption|]. eapply Forall_impl; [|exact Hge]. cbn beta. lia.
      * constructor; [lia|]. eapply Forall_impl; [|exact Hge]. cbn beta. lia.
      * rewrite E, map_app, <- app_assoc. reflexivity.
    + destruct (IH (S k) written) as (ks & Hs & Hge & E).
      exists ks. split; [assumption|]. split; [|assumption].
      eapply Forall_impl; [|exact Hge]. cbn beta. lia.
    + exists []. repeat split; try constructor. now rewrite app_nil_r.
Qed.

(** The pictures [extract_frames] writes are named so that the sort of the
    image files puts them back in the order of the frames, in whatever order
    [glob] lists them. *)
Theorem extracted_frames_sort_in_frame_order (path_exists : string -> bool)
    (cap : video F) (root : string) (N : pynum) (overwrite_extraction : bool)
    (listed : list string) :
  let written :=
    map fst (ext_written (extract_frames path_exists cap root N overwrite_extraction)) in
  Permutation listed written ->
  sort_by_numbers listed = written.
Proof.
  intros written Hp.
  assert (Hks : exists ks, StronglySorted lt ks /\ written = map (frame_path root) ks).
  { unfold written, extract_frames.
    destruct (_ || _); [|exists []; split; [constructor|reflexivity]].
    destruct (isOpened cap); [|exists []; split; [constructor|reflexivity]].
    destruct (@extract_loop_paths root (py_mul_int (CAP_PROP_FPS cap) N)
                (video_frames cap) 0 []) as (ks & Hs & _ & E).
    destruct (extract_loop root _ 0 (video_frames cap) []) as [wr e].
    exists ks. split; [assumption|]. exact E. }
  destruct Hks as (ks & Hs & Ew).
  apply in_order_unique.
  - apply sort_by_numbers_in_order.
  - rewrite Ew. now apply frame_paths_in_order.
  - rewrite sort_by_numbers_perm. exact Hp.
  - intros a b Ia Ib Hab Hba.
    assert (Ha : In a written)
      by (apply (Permutation_in a Hp), (Permutation_in a (sort_by_numbers_perm listed) Ia)).
    assert (Hb : In b written)
      by (apply (Permutation_in b Hp), (Permutation_in b (sort_by_numbers_perm listed) Ib)).
    rewrite Ew in Ha, Hb. apply in_map_iff in Ha, Hb.
    destruct Ha as (j & <- & _), Hb as (k & <- & _).
    rewrite numbers_leb_frame_path in Hab, Hba.
    apply Nat.leb_le in Hab, Hba. f_equal. lia.
Qed.

End FramesInOrder.

Section ExtractionWitnesses.

Lemma extract_frames_every_period_witness :
  extract_frames (fun _ => false) (clip 2) "v" (PyInt 1) false
  = {| ext_log := ["Extracting frames..."];
       ext_written := [("v_00000.png", 10%nat); ("v_00002.png", 12%nat);
                       ("v_00004.png", 14%nat)];
       ext_end := Returned |}.
Proof.
  exact (@extract_frames_every_period nat (fun _ => false) (clip 2) "v" 1 false
           eq_refl eq_refl ltac:(discriminate)).
Defined.

Lemma extract_frames_once_witness :
  extract_frames
    (exists_after (fun _ => false)
       (ext_written (extract_frames (fun _ => false) (clip 2) "v" (PyInt 1) false)))
    (clip 2) "v" (PyInt 1) false
  = nothing_extracted nat.
Proof.
  exact (@extract_frames_once nat (fun _ => false) (clip 2) "v" (PyInt 1) false
           10%nat [11; 12; 13; 14]%nat eq_refl ltac:(cbn; discriminate)).
Defined.

Lemma extract_frames_zero_rate_witness :
  extract_frames (fun _ => false) (clip 0) "v" (PyFloat 0.5) false
  = {| ext_log := ["Extracting frames..."]; ext_written := [];
       ext_end := ZeroDivisionError |}.
Proof.
  exact (@extract_frames_zero_rate nat (fun _ => false) (clip 0) "v" (PyFloat 0.5) false
           10%nat [11; 12; 13; 14]%nat eq_refl eq_refl eq_refl eq_refl eq_refl).
Defined.

Lemma extracted_frames_sort_in_frame_order_witness :
  sort_by_numbers ["v_00004.png"; "v_00000.png"; "v_00002.png"]
  = ["v_00000.png"; "v_00002.png"; "v_00004.png"].
Proof.
  exact (@extracted_frames_sort_in_frame_order nat (fun _ => false) (clip 2) "v"
           (PyInt 1) false ["v_00004.png"; "v_00000.png"; "v_00002.png"]
           (Permutation_cons_append ["v_00000.png"; "v_00002.png"] "v_00004.png")).
Defined.

End ExtractionWitnesses.

(** ** The trajectory file *)

Lemma length_append (a b : string) :
  String.length (a ++ b) = String.length a + String.length b.
Proof. induction a as [|c a IH]; cbn; [reflexivity|]. now rewrite IH. Qed.

Lemma append_inj_l (a b s : string) : a ++ s = b ++ s -> a = b.
Proof.
  revert b; induction a as [|c a IH]; intros [|d b] E; cbn in E.
  - reflexivity.
  - exfalso. apply (f_equal String.length) in E. cbn in E.
    rewrite length_append in E. lia.
  - exfalso. apply (f_equal String.length) in E. cbn in E.
    rewrite length_append in E. lia.
  - inversion E; subst. f_equal. now apply IH.
Qed.

Lemma last_char_append (a : string) (c : ascii) (s : string) :
  last_char (a ++ String c s) = last_char (String c s).
Proof.
  induction a as [|x a IH]; [reflexivity|].
  rewrite <- IH. cbn [append].
  assert (Hne : a ++ String c s <> "") by (destruct a; discriminate).
  destruct (a ++ String c s); [congruence|reflexivity].
Qed.

Lemma labels_XYZ_In (labels : list string) (x : string) :
  In x (labels_XYZ labels) ->
  exists l, In l labels /\ (x = l ++ "_X" \/ x = l ++ "_Y" \/ x = l ++ "_Z").
Proof.
  unfold labels_XYZ. intros Hin. apply in_flat_map in Hin.
  destruct Hin as (l & Hl & [<-|[<-|[<-|[]]]]); exists l; auto.
Qed.

Lemma suffix_differs (a b : string) (s t : string) (c d : ascii) :
  c <> d -> a ++ String "_" (String c "") <> b ++ String "_" (String d "").
Proof.
  intros Hcd E. apply (f_equal last_char) in E.
  rewrite !last_char_append in E. cbn in E. congruence.
Qed.

Lemma labels_XYZ_NoDup (labels : list string) :
  NoDup labels -> NoDup (labels_XYZ labels).
Proof.
  induction 1 as [|l labels Hl Hnd IH]; cbn; [constructor|].
  assert (Hnot : forall sfx, (sfx = "_X" \/ sfx = "_Y" \/ sfx = "_Z") ->
                 ~ In (l ++ sfx) (labels_XYZ labels)).
  { intros sfx Hs Hin. apply labels_XYZ_In in Hin. destruct Hin as (l' & Hl' & E).
    destruct Hs as [-> | [-> | ->]], E as [E|[E|E]];
      try (apply append_inj_l in E; subst; contradiction);
      apply suffix_differs in E; auto; discriminate. }
  constructor.
  { intros [E|[E|Hin]]; [| |now apply (Hnot "_X"); auto].
    - apply suffix_differs in E; auto; discriminate.
    - apply suffix_differs in E; auto; discriminate. }
  constructor.
  { intros [E|Hin]; [|now apply (Hnot "_Y"); auto].
    apply suffix_differs in E; auto; discriminate. }
  constructor; [|assumption].
  apply (Hnot "_Z"); auto.
Qed.

Lemma length_labels_XYZ (labels : list string) :
  length (labels_XYZ labels) = 3 * length labels.
Proof.
  unfold labels_XYZ. induction labels as [|l labels IH]; [reflexivity|].
  cbn [flat_map length app]. rewrite IH. lia.
Qed.

Lemma every_third_cells (markers : list (string * (string * string))) :
  every_third (flat_map (fun m => [fst m; fst (snd m); snd (snd m)]) markers)
  = map fst markers.
Proof.
  induction markers as [|m markers IH]; [reflexivity|].
  cbn [flat_map app every_third map]. now rewrite IH.
Qed.

Lemma every_third_cells_removelast (markers : list (string * (string * string))) :
  every_third (removelast (flat_map (fun m => [fst m; fst (snd m); snd (snd m)]) markers))
  = map fst markers.
Proof.
  induction markers as [|m markers IH]; [reflexivity|].
  cbn [flat_map app map].
  destruct (flat_map (fun m => [fst m; fst (snd m); snd (snd m)]) markers) as [|x l] eqn:E.
  - destruct markers; [reflexivity|discriminate].
  - change (every_third (fst m :: fst (snd m) :: snd (snd m) :: removelast (x :: l))
            = fst m :: map fst markers).
    cbn [every_third]. now rewrite IH.
Qed.

(** The names [df_from_trc] gives the columns.  The markers are read off a
    header row that ends with their last cell or one cell after it; the
    columns are two for the frame number and the time and three for each
    marker, no two the same when no two markers have the same name. *)
Theorem trc_columns_distinct (c0 c1 : string) (markers : list (string * (string * string)))
    (rest : list string) :
  length rest <= 1 ->
  NoDup (map fst markers) ->
  let labels := trc_labels (header_cells c0 c1 markers rest) in
  labels = map fst markers /\
  length (labels_FTXYZ labels) = 2 + 3 * length markers /\
  NoDup (labels_FTXYZ labels).
Proof.
  intros Hrest Hnd labels.
  assert (El : labels = map fst markers).
  { unfold labels, trc_labels, header_cells.
    destruct rest as [|z [|? ?]]; [| |cbn in Hrest; lia].
    - rewrite app_nil_r.
      destruct (flat_map (fun m => [fst m; fst (snd m); snd (snd m)]) markers)
        as [|x l] eqn:E.
      + destruct markers; [reflexivity|discriminate].
      + change (removelast (c0 :: c1 :: x :: l)) with (c0 :: c1 :: removelast (x :: l)).
        cbn [skipn]. rewrite <- E. apply every_third_cells_removelast.
    - change (c0 :: c1 :: ?l ++ [z])%list with ((c0 :: c1 :: l) ++ [z])%list.
      rewrite removelast_last. cbn [skipn]. apply every_third_cells. }
  rewrite El. split; [reflexivity|]. split.
  - unfold labels_FTXYZ. cbn [length]. now rewrite length_labels_XYZ, length_map.
  - unfold labels_FTXYZ.
    assert (Hend : forall x, In x (labels_XYZ (map fst markers)) ->
                   last_char x = Some "X"%char \/ last_char x = Some "Y"%char
                   \/ last_char x = Some "Z"%char).
    { intros x Hx. apply labels_XYZ_In in Hx.
      destruct Hx as (l & _ & [-> | [-> | ->]]); rewrite last_char_append; cbn; auto. }
    constructor.
    { intros [E|Hin]; [discriminate|]. apply Hend in Hin. cbn in Hin.
      destruct Hin as [E|[E|E]]; discriminate. }
    constructor; [|now apply labels_XYZ_NoDup].
    intros Hin. apply Hend in Hin. cbn in Hin. destruct Hin as [E|[E|E]]; discriminate.
Qed.

Lemma drop_last2_suffix (l : string) (c d : ascii) :
  drop_last2 (l ++ String c (String d "")) = l.
Proof.
  unfold drop_last2. rewrite chars_app, length_app. cbn [list_ascii_of_string length].
  replace (length (list_ascii_of_string l) + 2 - 2) with
    (length (list_ascii_of_string l) + 0) by lia.
  rewrite firstn_app_2. cbn [firstn]. rewrite app_nil_r.
  apply string_of_list_ascii_of_string.
Qed.

Lemma rotate_labels_XYZ (labels : list string) :
  rotate_triplets (labels_XYZ labels)
  = flat_map (fun l => [l ++ "_Z"; l ++ "_X"; l ++ "_Y"]) labels.
Proof.
  induction labels as [|l labels IH]; [reflexivity|].
  cbn [labels_XYZ flat_map app rotate_triplets]. unfold labels_XYZ in IH. now rewrite IH.
Qed.

Lemma every_third_zxy (labels : list string) :
  every_third (flat_map (fun l => [l ++ "_Z"; l ++ "_X"; l ++ "_Y"]) labels)
  = map (fun l => l ++ "_Z") labels.
Proof.
  induction labels as [|l labels IH]; [reflexivity|].
  cbn [flat_map app every_third map]. now rewrite IH.
Qed.

Section TrcFacts.
Variable X : Type.

Lemma columns_skipn (n : nat) (Q : table X) : columns (skipn n Q) = skipn n (columns Q).
Proof. unfold columns. now rewrite skipn_map. Qed.

Lemma columns_firstn (n : nat) (Q : table X) : columns (firstn n Q) = firstn n (columns Q).
Proof. unfold columns. now rewrite firstn_map. Qed.

(** [yup2zup] on a table with distinct labels is the permutation of
    positions. *)
Lemma yup2zup_distinct (Q : table X) (N : nat) :
  NoDup (columns Q) -> length Q = 3 * N -> yup2zup Q = Some (rotate_triplets Q).
Proof.
  intros Hnd Hlen.
  assert (Hcols : length (columns Q) = 3 * N)
    by (unfold columns; now rewrite length_map).
  unfold yup2zup. rewrite triplet_labels_yup2zup with (N := N) by assumption.
  cbn [obind].
  assert (Hmap : columns (rotate_triplets Q) = rotate_triplets (columns Q))
    by now apply rotate_triplets_map with (N := N).
  rewrite <- Hmap.
  apply getcols_present; [assumption|].
  intros c Hc. apply (Permutation_in c (rotate_triplets_perm N Q Hlen) Hc).
Qed.

(** From the file to the body parts: on the table [df_from_trc] builds for
    markers with different names, the change of axes returns, keeps the two
    leading columns, puts the columns of every marker in the order Z, X, Y
    with their own values, and the body parts read off the new columns are
    the marker names of the file. *)
Theorem bodyparts_are_the_markers (labels : list string) (data_trc : table X) :
  NoDup labels ->
  columns data_trc = labels_FTXYZ labels ->
  exists zup,
    data_trc_zup data_trc = Some zup /\
    zup = app (firstn 2 data_trc) (rotate_triplets (skipn 2 data_trc)) /\
    columns zup
    = "Frame#" :: "Time" :: flat_map (fun l => [l ++ "_Z"; l ++ "_X"; l ++ "_Y"]) labels /\
    bodyparts zup = labels.
Proof.
  intros Hnd Hcols.
  assert (Hq : columns (skipn 2 data_trc) = labels_XYZ labels)
    by (rewrite columns_skipn, Hcols; reflexivity).
  assert (Hlen : length (skipn 2 data_trc) = 3 * length labels).
  { rewrite <- length_labels_XYZ, <- Hq. unfold columns. now rewrite length_map. }
  assert (Hz : yup2zup (skipn 2 data_trc) = Some (rotate_triplets (skipn 2 data_trc))).
  { apply yup2zup_distinct with (N := length labels); [|assumption].
    rewrite Hq. now apply labels_XYZ_NoDup. }
  assert (Hc : columns (app (firstn 2 data_trc) (rotate_triplets (skipn 2 data_trc)))
               = "Frame#" :: "Time"
                 :: flat_map (fun l => [l ++ "_Z"; l ++ "_X"; l ++ "_Y"]) labels).
  { unfold columns at 1. rewrite map_app. fold (columns (firstn 2 data_trc)).
    rewrite columns_firstn, Hcols.
    assert (Hmap : map fst (rotate_triplets (skipn 2 data_trc))
                   = rotate_triplets (columns (skipn 2 data_trc)))
      by now apply rotate_triplets_map with (N := length labels).
    rewrite Hmap, Hq, rotate_labels_XYZ. reflexivity. }
  eexists. split; [|split; [reflexivity|split; [exact Hc|]]].
  - unfold data_trc_zup. rewrite Hz. reflexivity.
  - unfold bodyparts. rewrite Hc. cbn [skipn]. rewrite every_third_zxy, map_map.
    erewrite map_ext; [apply map_id|]. intros l. apply drop_last2_suffix.
Qed.

End TrcFacts.

Section TrcWitnesses.
Local Open Scope float_scope.

Lemma NoDup_A_B : NoDup ["A"; "B"].
Proof.
  constructor; [intros [E|[]]; discriminate|]. constructor; [intros []|constructor].
Qed.

Lemma trc_columns_distinct_witness :
  trc_labels ["Frame#"; "Time"; "A"; ""; ""; "B"; ""; ""; ""] = ["A"; "B"] /\
  length (labels_FTXYZ ["A"; "B"]) = 8%nat /\
  NoDup ["Frame#"; "Time"; "A_X"; "A_Y"; "A_Z"; "B_X"; "B_Y"; "B_Z"].
Proof.
  exact (@trc_columns_distinct "Frame#" "Time" [("A", ("", "")); ("B", ("", ""))] [""]
           (le_n 1) NoDup_A_B).
Defined.

Lemma bodyparts_are_the_markers_witness :
  exists zup,
    data_trc_zup trc_two = Some zup /\
    zup = [ ("Frame#", [1; 2]); ("Time", [0; 0.5]);
            ("A_Z", [5; 6]); ("A_X", [1; 2]); ("A_Y", [3; 4]);
            ("B_Z", [11; 12]); ("B_X", [7; 8]); ("B_Y", [9; 10]) ] /\
    columns zup
    = ["Frame#"; "Time"; "A_Z"; "A_X"; "A_Y"; "B_Z"; "B_X"; "B_Y"] /\
    bodyparts zup = ["A"; "B"].
Proof.
  exact (@bodyparts_are_the_markers (list float) ["A"; "B"] trc_two NoDup_A_B eq_refl).
Defined.

End TrcWitnesses.

(** ** The arguments of the reprojection *)

(** A call with one argument returns only when the argument is a dictionary
    with the four keys the function reads; any other single argument ends in
    [IndexError] at [args[1]].  The dictionary the [__main__] block passes is
    one of those: its keys are the names of the command line options, so a
    run from the command line raises [IndexError] whatever options it is
    given. *)
Theorem reproj_arguments_single (a : argument) :
  (forall r, reproj_arguments_of [a] = inr r ->
     exists d trc calib fmt root,
       a = ArgDict d /\
       lookup "input_trc_file" d = Some trc /\
       lookup "input_calib_file" d = Some calib /\
       lookup "openpose_or_deeplabcut_format" d = Some fmt /\
       lookup "output_file_root" d = Some root) /\
  (arguments_from_dict [a] = None -> reproj_arguments_of [a] = inl ArgIndexError) /\
  (forall t c f o, reproj_arguments_of (main_arguments t c f o) = inl ArgIndexError).
Proof.
  split; [|split].
  - intros r. unfold reproj_arguments_of, arguments_from_dict. cbn [nth_error obind].
    destruct a as [s| |d]; try discriminate.
    destruct (lookup "input_trc_file" d) as [trc|] eqn:E1; [|discriminate].
    destruct (lookup "input_calib_file" d) as [calib|] eqn:E2; [|discriminate].
    destruct (lookup "openpose_or_deeplabcut_format" d) as [fmt|] eqn:E3; [|discriminate].
    destruct (lookup "output_file_root" d) as [root|] eqn:E4; [|discriminate].
    intros _. now exists d, trc, calib, fmt, root.
  - unfold reproj_arguments_of. now intros ->.
  - reflexivity.
Qed.


Section ArgumentWitnesses.

Lemma reproj_arguments_single_witness :
  (exists d trc calib fmt root,
     ArgDict [ ("input_trc_file", Some "a.trc"); ("input_calib_file", Some "c.toml");
               ("openpose_or_deeplabcut_format", None); ("output_file_root", None) ]
     = ArgDict d /\
     lookup "input_trc_file" d = Some trc /\
     lookup "input_calib_file" d = Some calib /\
     lookup "openpose_or_deeplabcut_format" d = Some fmt /\
     lookup "output_file_root" d = Some root) /\
  reproj_arguments_of [ArgStr "a.trc"] = inl ArgIndexError /\
  reproj_arguments_of (main_arguments "a.trc" "c.toml" (Some "openpose") None)
  = inl ArgIndexError.
Proof.
  split; [|split].
  - exact (proj1 (reproj_arguments_single
                    (ArgDict [ ("input_trc_file", Some "a.trc");
                               ("input_calib_file", Some "c.toml");
                               ("openpose_or_deeplabcut_format", None);
                               ("output_file_root", None) ])) _ eq_refl).
  - exact (proj1 (proj2 (reproj_arguments_single (ArgStr "a.trc"))) eq_refl).
  - exact (proj2 (proj2 (reproj_arguments_single ArgNone)) "a.trc" "c.toml"
             (Some "openpose") None).
Defined.


End ArgumentWitnesses.

(** ** The reprojection of a trajectory *)

Section ReprojectRowsFacts.
Context {A : Type} `{Number A}.









End ReprojectRowsFacts.

(** ** Conversions and the whole run *)

Section WholeRunFacts.
Context {A : Type} `{Number A}.
Variable RT_qca2cv : mat A -> vec A -> option (mat A * vec A).
Variable rotate_cam_pi : mat A -> vec A -> option (mat A * vec A).
Variable Rodrigues_vector : mat A -> option (vec A).
Variable around3 : A -> A.
Variable quat2mat : list A -> nat -> option (mat A).
Variable w : world (A := A).
Variable getcwd : string.
Variable parse_qca : string -> option (list (qca_camera (A := A))).
Variable parse_vicon : string -> option (list (vicon_camera (A := A))).


(** The runs that end before any calibration.  With settings the module has
    no calibration for (Optitrack, calibration from points, a calibration
    type or method it does not know) a variable is read that no branch has
    assigned, and with a vendor file to convert that is not there the first
    match of an empty list is taken: the run ends in [NameError], or in
    [IndexError], and no calibration file is written. *)
Theorem calibrate_cams_all_refusals (cfg : config (A := A)) :
  let dir := if String.eqb (project_dir cfg) "" then getcwd else project_dir cfg in
  let calib_dir := path_join dir (calib_folder_name cfg) in
  let result :=
    calibrate_cams_all RT_qca2cv rotate_cam_pi Rodrigues_vector around3 quat2mat
      w getcwd parse_qca parse_vicon cfg in
  (supported cfg = false ->
   exists name,
     run_end result = Raised (NameError name) /\
     run_file result = None /\ run_recap result = None) /\
  (calibration_type cfg = "convert" ->
   forall ext,
     (convert_from cfg = "qualisys" /\ ext = ".qca.txt"
      \/ convert_from cfg = "vicon" /\ ext = ".xcp") ->
     glob w (path_join calib_dir ("*" ++ ext ++ "*")) = [] ->
     result
     = {| run_log := []; run_file := None; run_recap := None;
          run_end := Raised IndexError |}).
Proof.
  intros dir calib_dir result. unfold result. clear result. split.
  - unfold supported, calibrate_cams_all, select_calibration. fold dir. fold calib_dir.
    destruct (String.eqb (calibration_type cfg) "convert").
    + destruct (String.eqb (convert_from cfg) "qualisys"); [discriminate|].
      destruct (String.eqb (convert_from cfg) "optitrack").
      * intros _. exists "convert_ext". cbn. repeat split.
      * destruct (String.eqb (convert_from cfg) "vicon"); [discriminate|].
        intros _. exists "convert_ext". cbn. repeat split.
    + destruct (String.eqb (calibration_type cfg) "calculate").
      * destruct (String.eqb (calculate_method cfg) "board"); [discriminate|].
        intros _. exists "calib_full_type".
        destruct (String.eqb (calculate_method cfg) "points"); cbn; repeat split.
      * intros _. exists "calib_full_type". cbn. repeat split.
  - intros Ht ext Hext Hglob.
    unfold calibrate_cams_all, select_calibration. fold dir. fold calib_dir.
    rewrite Ht. cbn [String.eqb Ascii.eqb Bool.eqb].
    destruct Hext as [[-> ->]|[-> ->]]; cbn [String.eqb Ascii.eqb Bool.eqb bind_run ret_run];
      cbn [app]; rewrite Hglob; reflexivity.
Qed.

Lemma cam_block_read (C : list string) (S D : list (vec A)) (K : list (mat A))
    (R T : list (vec A)) (c : nat) (b : string * toml_table A) :
  cam_block C S D K R T c = Some b ->
  String.eqb (fst b) "metadata" = false /\
  exists k00 k02 k11 k12 t0 t1 t2,
    obind (lookup "matrix" (snd b)) as_mat = Some (pinned k00 k02 k11 k12) /\
    obind (lookup "translation" (snd b)) as_vec = Some [t0; t1; t2].
Proof.
  unfold cam_block. intros E.
  repeat match type of E with
         | obind ?o _ = Some _ => destruct o; [cbn [obind] in E|discriminate]
         end.
  inversion E; subst; clear E. cbn [fst snd]. split; [apply cam_name_not_metadata|].
  do 7 eexists. split; reflexivity.
Qed.

Lemma skipn_nth_error {X : Type} (l : list X) (k : nat) (x : X) :
  nth_error l k = Some x -> skipn k l = x :: skipn (Datatypes.S k) l.
Proof.
  revert l; induction k as [|k IH]; intros [|y l] E; try discriminate.
  - now inversion E.
  - cbn in E. apply IH in E. exact E.
Qed.

Lemma euclidean_distance_3 (t0 t1 t2 : A) :
  exists Dm, euclidean_distance [t0; t1; t2] [nlit 0; nlit 0; nlit 0] = Some Dm.
Proof. eexists. reflexivity. Qed.

Lemma recap_from_metadata (c : nat) (ret : list A) (calib_full_type : string) :
  recap_from around3 [metadata_block] c ret calib_full_type = Some ([], []).
Proof. reflexivity. Qed.

Lemma recap_from_written (C : list string) (S D : list (vec A)) (K : list (mat A))
    (R T : list (vec A)) (ret : list A) (calib_full_type : string)
    (n k : nat) (bs : toml_doc A) :
  mapM (cam_block C S D K R T) (seq k n) = Some bs ->
  k + n <= length ret ->
  exists ret_m ret_px,
    recap_from around3 (app bs [metadata_block]) k ret calib_full_type
    = Some (ret_m, ret_px) /\
    match residual_unit_of calib_full_type with
    | Some Pixels =>
        ret_px = map around3 (firstn n (skipn k ret)) /\ length ret_m = n
    | Some Millimetres =>
        ret_m = map around3 (firstn n (skipn k ret)) /\ length ret_px = n
    | None => ret_m = [] /\ ret_px = []
    end.
Proof.
  revert k bs; induction n as [|n IH]; intros k bs E Hlen.
  - cbn in E. inversion E; subst. exists [], []. split; [reflexivity|].
    destruct (residual_unit_of calib_full_type) as [[|]|]; split; reflexivity.
  - cbn [seq mapM] in E.
    destruct (cam_block C S D K R T k) as [b|] eqn:Eb; [|discriminate]. cbn [obind] in E.
    destruct (mapM (cam_block C S D K R T) (seq (Datatypes.S k) n)) as [bs'|] eqn:Ebs;
      [|discriminate].
    inversion E; subst bs; clear E.
    destruct (IH (Datatypes.S k) bs' Ebs ltac:(lia)) as (ret_m & ret_px & Erec & Hrec).
    apply cam_block_read in Eb.
    destruct Eb as (Hname & k00 & k02 & k11 & k12 & t0 & t1 & t2 & Hm & Ht).
    destruct b as [cam tbl]. cbn [fst snd] in Hname, Hm, Ht.
    cbn [app recap_from]. rewrite Hname, Hm, Ht. cbn [obind].
    change (idx2 (pinned k00 k02 k11 k12) 0 0) with (Some k00). cbn [obind].
    destruct (euclidean_distance_3 t0 t1 t2) as [Dm ->]. cbn [obind].
    assert (Hr : exists r, nth_error ret k = Some r /\
                           firstn (Datatypes.S n) (skipn k ret)
                           = r :: firstn n (skipn (Datatypes.S k) ret)).
    { destruct (nth_error ret k) as [r|] eqn:Er.
      - exists r. split; [reflexivity|]. now rewrite (skipn_nth_error _ _ Er).
      - apply nth_error_None in Er. lia. }
    destruct Hr as (r & Er & Efirst).
    unfold residual_unit_of in *.
    destruct (String.eqb calib_full_type "convert_qualisys"
              || String.eqb calib_full_type "convert_vicon").
    + rewrite Er. cbn [obind]. rewrite Erec. cbn [obind].
      eexists _, _. split; [reflexivity|]. destruct Hrec as [-> Hl].
      rewrite Efirst. cbn [map length]. split; [reflexivity|]. now rewrite Hl.
    + destruct (String.eqb calib_full_type "calculate_board").
      * rewrite Er. cbn [obind]. rewrite Erec. cbn [obind].
        eexists _, _. split; [reflexivity|]. destruct Hrec as [-> Hl].
        rewrite Efirst. cbn [map length]. split; [reflexivity|]. now rewrite Hl.
      * rewrite Erec. eexists _, _. split; [reflexivity|]. exact Hrec.
Qed.

(** The recap after a write.  On a file [toml_write] has written to its
    end, with a residual for every camera, [recap_calibrate] returns; it
    gives one value in px and one in mm for each camera and none for the
    [metadata] table.  The values of a board calibration in px, and those
    of a converted file in mm, are the residuals as they are, rounded; for
    a calibration type it does not know both lists are empty. *)
Theorem recap_after_write (C : list string) (S D : list (vec A)) (K : list (mat A))
    (R T : list (vec A)) (doc : toml_doc A) (ret : list A) (calib_full_type : string) :
  toml_write C S D K R T = (doc, true) ->
  length C <= length ret ->
  exists ret_px ret_m,
    recap_calibrate around3 ret doc calib_full_type = Some (ret_px, ret_m) /\
    match residual_unit_of calib_full_type with
    | Some Pixels =>
        ret_px = map around3 (firstn (length C) ret) /\ length ret_m = length C
    | Some Millimetres =>
        ret_m = map around3 (firstn (length C) ret) /\ length ret_px = length C
    | None => ret_m = [] /\ ret_px = []
    end.
Proof.
  unfold toml_write. intros E Hlen.
  destruct (write_cams C S D K R T (seq 0 (length C))) as [bs [|]] eqn:Ew;
    inversion E; subst doc; clear E.
  assert (Hbs : mapM (cam_block C S D K R T) (seq 0 (length C)) = Some bs).
  { clear Hlen. revert bs Ew. generalize (seq 0 (length C)).
    induction l as [|c cs IH]; cbn; intros bs Ew; [now inversion Ew|].
    destruct (cam_block C S D K R T c); [|discriminate]. cbn.
    destruct (write_cams C S D K R T cs) as [bs' ok]. inversion Ew; subst.
    now rewrite (IH bs' eq_refl). }
  destruct (@recap_from_written C S D K R T ret calib_full_type (length C) 0 bs Hbs
              ltac:(lia)) as (ret_m & ret_px & Erec & Hrec).
  exists ret_px, ret_m. unfold recap_calibrate. rewrite Erec. split; [reflexivity|].
  exact Hrec.
Qed.

Lemma read_qca_lengths (root : list (qca_camera (A := A))) (binning_factor : A)
    (cal : vendor_calibration (A := A)) :
  read_qca root binning_factor = Some cal -> vendor_lengths (length (vnd_C cal)) cal.
Proof.
  unfold read_qca. cbv zeta. intros E.
  repeat match type of E with
         | obind ?o _ = Some _ =>
             let x := fresh "x" in let Ex := fresh "Ex" in
             destruct o as [x|] eqn:Ex; [cbn [obind] in E|discriminate]
         end.
  inversion E; subst cal; clear E. unfold vendor_lengths. cbn.
  repeat match goal with
         | Hg : getitems _ _ = Some _ |- _ => apply getitems_length in Hg
         end.
  unfold vec, mat in *. repeat split; congruence.
Qed.

Lemma read_vicon_lengths (root : list (vicon_camera (A := A)))
    (cal : vendor_calibration (A := A)) :
  read_vicon quat2mat root = Some cal -> vendor_lengths (length (vnd_C cal)) cal.
Proof.
  unfold read_vicon. cbv zeta. intros E.
  repeat match type of E with
         | obind ?o _ = Some _ =>
             let x := fresh "x" in let Ex := fresh "Ex" in
             destruct o as [x|] eqn:Ex; [cbn [obind] in E|discriminate]
         end.
  inversion E; subst cal; clear E. unfold vendor_lengths. cbn.
  assert (Hret : length x = length root) by now apply mapM_length in Ex.
  assert (Hid : length x6 = length root).
  { repeat match goal with
           | Hg : getitems _ _ = Some _ |- _ => apply getitems_length in Hg
           end.
    apply mapM_length in Ex5.
    rewrite (Permutation.Permutation_length (natural_sort_perm _)) in Ex5.
    rewrite length_map, length_enumerate in *. congruence. }
  repeat match goal with
         | Hg : getitems _ _ = Some _ |- _ => apply getitems_length in Hg
         end.
  unfold vec, mat in *. repeat split; congruence.
Qed.

Lemma convert_RT_lengths (f : mat A -> vec A -> option (mat A * vec A))
    (R R' : list (mat A)) (T T' : list (vec A)) :
  length R = length T -> convert_RT f R T = Some (R', T') ->
  length R' = length R /\ length T' = length R.
Proof.
  unfold convert_RT. intros Hl E.
  destruct (mapM _ _) as [RT|] eqn:ERT; [|discriminate]. cbn in E. inversion E; subst.
  apply mapM_length in ERT. rewrite length_combine in ERT.
  rewrite !length_map. lia.
Qed.

(** Both converters hand on the residuals, names, sizes, distortions and
    matrices of their reader untouched and put one rotation vector and one
    translation beside each: the seven lists that go to [toml_write] have
    one length. *)
Theorem converters_keep_lists_aligned :
  (forall root binning_factor cal,
     calib_qca_fun RT_qca2cv rotate_cam_pi Rodrigues_vector root binning_factor = Some cal ->
     exists read,
       read_qca root binning_factor = Some read /\
       cal_ret cal = vnd_ret read /\ cal_C cal = vnd_C read /\ cal_S cal = vnd_S read /\
       cal_D cal = vnd_D read /\ cal_K cal = vnd_K read /\
       length (cal_ret cal) = length (cal_C cal) /\
       length (cal_S cal) = length (cal_C cal) /\
       length (cal_D cal) = length (cal_C cal) /\
       length (cal_K cal) = length (cal_C cal) /\
       length (cal_R cal) = length (cal_C cal) /\
       length (cal_T cal) = length (cal_C cal)) /\
  (forall root cal,
     calib_vicon_fun RT_qca2cv Rodrigues_vector quat2mat root = Some cal ->
     exists read,
       read_vicon quat2mat root = Some read /\
       cal_ret cal = vnd_ret read /\ cal_C cal = vnd_C read /\ cal_S cal = vnd_S read /\
       cal_D cal = vnd_D read /\ cal_K cal = vnd_K read /\
       length (cal_ret cal) = length (cal_C cal) /\
       length (cal_S cal) = length (cal_C cal) /\
       length (cal_D cal) = length (cal_C cal) /\
       length (cal_K cal) = length (cal_C cal) /\
       length (cal_R cal) = length (cal_C cal) /\
       length (cal_T cal) = length (cal_C cal)).
Proof.
  split.
  - intros root b cal. unfold calib_qca_fun. intros E.
    destruct (read_qca root b) as [read|] eqn:Eread; [|discriminate]. cbn [obind] in E.
    destruct (convert_RT RT_qca2cv (vnd_R read) (vnd_T read)) as [[R1 T1]|] eqn:E1;
      [|discriminate]. cbn [obind] in E.
    destruct (convert_RT rotate_cam_pi R1 T1) as [[R2 T2]|] eqn:E2; [|discriminate].
    cbn [obind] in E.
    destruct (mapM Rodrigues_vector R2) as [R3|] eqn:E3; [|discriminate].
    inversion E; subst cal; clear E. cbn.
    destruct (read_qca_lengths _ _ Eread) as (L1 & _ & L3 & L4 & L5 & L6 & L7).
    apply convert_RT_lengths in E1; [|unfold vec, mat in *; congruence]. destruct E1 as [LR1 LT1].
    apply convert_RT_lengths in E2; [|unfold vec, mat in *; congruence]. destruct E2 as [LR2 LT2].
    apply mapM_length in E3.
    exists read. unfold vec, mat in *. repeat split; congruence.
  - intros root cal. unfold calib_vicon_fun. intros E.
    destruct (read_vicon quat2mat root) as [read|] eqn:Eread; [|discriminate].
    cbn [obind] in E.
    destruct (convert_RT RT_qca2cv (vnd_R read) (vnd_T read)) as [[R1 T1]|] eqn:E1;
      [|discriminate]. cbn [obind] in E.
    destruct (mapM Rodrigues_vector R1) as [R2|] eqn:E2; [|discriminate].
    inversion E; subst cal; clear E. cbn.
    destruct (read_vicon_lengths _ Eread) as (L1 & _ & L3 & L4 & L5 & L6 & L7).
    apply convert_RT_lengths in E1; [|unfold vec, mat in *; congruence]. destruct E1 as [LR1 LT1].
    apply mapM_length in E2.
    exists read. unfold vec, mat in *. repeat split; congruence.
Qed.

End WholeRunFacts.

Section RunWitnesses.
Local Open Scope float_scope.

Lemma calibrate_cams_all_refusals_witness :
  (exists name,
     run_end (calibrate_cams_all keep_RT keep_RT zero_vector no_rounding quat_oracle
                no_world "/home/lab" (fun _ => None) (fun _ => None) optitrack_config)
     = Raised (NameError name) /\
     run_file (calibrate_cams_all keep_RT keep_RT zero_vector no_rounding quat_oracle
                 no_world "/home/lab" (fun _ => None) (fun _ => None) optitrack_config)
     = None /\
     run_recap (calibrate_cams_all keep_RT keep_RT zero_vector no_rounding quat_oracle
                  no_world "/home/lab" (fun _ => None) (fun _ => None) optitrack_config)
     = None) /\
  calibrate_cams_all keep_RT keep_RT zero_vector no_rounding quat_oracle
    no_world "/home/lab" (fun _ => None) (fun _ => None) qualisys_config
  = {| run_log := []; run_file := None; run_recap := None;
       run_end := Raised IndexError |}.
Proof.
  split.
  - exact (proj1 (@calibrate_cams_all_refusals float _ keep_RT keep_RT zero_vector
                    no_rounding quat_oracle no_world "/home/lab"
                    (fun _ => None) (fun _ => None) optitrack_config) eq_refl).
  - exact (proj2 (@calibrate_cams_all_refusals float _ keep_RT keep_RT zero_vector
                    no_rounding quat_oracle no_world "/home/lab"
                    (fun _ => None) (fun _ => None) qualisys_config) eq_refl
             ".qca.txt" (or_introl (conj eq_refl eq_refl)) eq_refl).
Defined.

Lemma recap_after_write_witness :
  exists ret_px ret_m,
    recap_calibrate no_rounding [0.7] (fst (write_calibration (cal_one [0.7])))
      "calculate_board"
    = Some (ret_px, ret_m) /\
    ret_px = [0.7] /\ length ret_m = 1%nat.
Proof.
  exact (@recap_after_write float _ no_rounding ["cam"%string] [[1280; 720]]
           [[0.1; 0.01; 0; 0]] [K_cam] [[0; 0; 0]] [[0; 0; 5]]
           (fst (write_calibration (cal_one [0.7]))) [0.7] "calculate_board"
           eq_refl (le_n 1)).
Defined.

Lemma converters_keep_lists_aligned_witness :
  (exists read,
     read_qca qca_two 2 = Some read /\
     [0.25] = vnd_ret read /\ ["20002"%string] = vnd_C read /\
     [[960; 540]] = vnd_S read /\ [[0; 0; 0; 0]] = vnd_D read /\
     [ [ [1000; 0; 480]; [0; 1000; 270]; [0; 0; 1] ] ] = vnd_K read /\
     length [0.25] = 1%nat /\ length [[960; 540]] = 1%nat /\
     length [[0; 0; 0; 0]] = 1%nat /\
     length [ [ [1000; 0; 480]; [0; 1000; 270]; [0; 0; 1] ] ] = 1%nat /\
     length [[0; 0; 0]] = 1%nat /\ length [[1; 2; 3]] = 1%nat) /\
  (exists read,
     read_vicon quat_oracle vicon_two = Some read /\
     [0.25; 0.125] = vnd_ret read /\ ["1"%string; "2"%string] = vnd_C read /\
     [[2048; 1080]; [1920; 1080]] = vnd_S read /\
     [[0.5; 0.25; 0; 0]; [0.5; 0.25; 0; 0]] = vnd_D read /\
     [ [ [2000; 0; 960]; [0; 2000; 540]; [0; 0; 1] ];
       [ [2000; 0; 960]; [0; 2000; 540]; [0; 0; 1] ] ] = vnd_K read /\
     length [0.25; 0.125] = 2%nat /\ length [[2048; 1080]; [1920; 1080]] = 2%nat /\
     length [[0.5; 0.25; 0; 0]; [0.5; 0.25; 0; 0]] = 2%nat /\
     length [ [ [2000; 0; 960]; [0; 2000; 540]; [0; 0; 1] ];
              [ [2000; 0; 960]; [0; 2000; 540]; [0; 0; 1] ] ] = 2%nat /\
     length [[0; 0; 0]; [0; 0; 0]] = 2%nat /\
     length [[1; 2; 3]; [1; 2; 3]] = 2%nat).
Proof.
  split.
  - exact (proj1 (@converters_keep_lists_aligned float _ keep_RT keep_RT zero_vector
                    quat_oracle) qca_two 2 _ eq_refl).
  - exact (proj2 (@converters_keep_lists_aligned float _ keep_RT keep_RT zero_vector
                    quat_oracle) vicon_two _ eq_refl).
Defined.

End RunWitnesses.

(** ** More on the trajectory table, the projection and the readers *)

Section TripletsAnyLength.
Variable X : Type.

Lemma rotate_triplets_map_any {Y Z : Type} (f : Y -> Z) (l : list Y) :
  map f (rotate_triplets l) = rotate_triplets (map f l).
Proof.
  assert (G : forall n (l : list Y), length l <= n ->
              map f (rotate_triplets l) = rotate_triplets (map f l)).
  { induction n as [|n IH]; intros [|x [|y [|z m]]] Hl; cbn in *; try reflexivity; try lia.
    do 3 f_equal. apply IH. lia. }
  now apply (G (length l)).
Qed.

Lemma rotate_triplets_incl {Y : Type} (l : list Y) : incl (rotate_triplets l) l.
Proof.
  assert (G : forall n (l : list Y), length l <= n -> incl (rotate_triplets l) l).
  { induction n as [|n IH]; intros [|x [|y [|z m]]] Hl; cbn [length rotate_triplets] in *;
      try lia; try (intros c Hc; now destruct Hc).
    intros c Hc. destruct Hc as [<-|[<-|[<-|Hc]]]; cbn; auto.
    do 3 right. apply (IH m); [lia|assumption]. }
  now apply (G (length l)).
Qed.

Lemma rotate_triplets_length {Y : Type} (l : list Y) :
  length (rotate_triplets l) = 3 * (length l / 3).
Proof.
  assert (G : forall n (l : list Y), length l <= n ->
              length (rotate_triplets l) = 3 * (length l / 3)).
  { induction n as [|n IH]; intros [|x [|y [|z m]]] Hl; cbn [length rotate_triplets] in *;
      try reflexivity; try lia.
    rewrite (IH m) by lia.
    change (S (S (S (length m)))) with (3 + length m).
    replace (3 + length m) with (1 * 3 + length m) by lia.
    rewrite Nat.div_add_l by lia. lia. }
  now apply (G (length l)).
Qed.

Lemma triplet_labels_any (cols : list string) :
  triplet_labels 2 0 1 cols = Some (rotate_triplets cols).
Proof.
  assert (G : forall n (l : list string), length l <= n ->
              triplet_labels 2 0 1 l = Some (rotate_triplets l)).
  { induction n as [|n IH]; intros [|x [|y [|z m]]] Hl; cbn [length] in *;
      try reflexivity; try lia.
    rewrite triplet_labels_step. cbn [nth_error obind].
    rewrite (IH m) by lia. reflexivity. }
  now apply (G (length cols)).
Qed.

(** [yup2zup] on any number of columns: with labels that are all different
    it returns the full triplets reordered, each column with its own values,
    and leaves out the one or two columns after the last full triplet. *)
Theorem yup2zup_drops_incomplete_triplet (Q : table X) :
  NoDup (columns Q) ->
  yup2zup Q = Some (rotate_triplets Q) /\
  length (rotate_triplets Q) = 3 * (length Q / 3) /\
  incl (rotate_triplets Q) Q.
Proof.
  intros Hnd. split; [|split; [apply rotate_triplets_length|apply rotate_triplets_incl]].
  unfold yup2zup. rewrite triplet_labels_any. cbn [obind].
  assert (Hmap : columns (rotate_triplets Q) = rotate_triplets (columns Q))
    by apply rotate_triplets_map_any.
  rewrite <- Hmap. apply getcols_present; [assumption|apply rotate_triplets_incl].
Qed.

End TripletsAnyLength.

Section Pinhole.
Local Open Scope R_scope.

(** The projection matrix and the reprojection together are the pinhole
    camera, in exact arithmetic: a point at (Xc, Yc, Zc) in the frame of a
    camera with matrix [(fx, 0, cx; 0, fy, cy; 0, 0, 1)] is seen at
    (fx * Xc / Zc + cx, fy * Yc / Zc + cy), and the denominator of the
    reprojection is its depth Zc, provided the depth is not zero. *)
Theorem reprojection_is_pinhole
    (fx fy cx cy r11 r12 r13 r21 r22 r23 r31 r32 r33 t1 t2 t3 X Y Z : R) :
  let Xc := r11 * X + r12 * Y + r13 * Z + t1 in
  let Yc := r21 * X + r22 * Y + r23 * Z + t2 in
  let Zc := r31 * X + r32 * Y + r33 * Z + t3 in
  Zc <> 0 ->
  exists P,
    projection_matrix (pinned fx cx fy cy)
      [[r11; r12; r13]; [r21; r22; r23]; [r31; r32; r33]] [t1; t2; t3] = Some P /\
    denominator P [X; Y; Z; 1] = Some Zc /\
    reprojection [P] [X; Y; Z; 1]
    = Some ([fx * Xc / Zc + cx], [fy * Yc / Zc + cy]).
Proof.
  intros Xc Yc Zc Hz. unfold Xc, Yc, Zc in *. clear Xc Yc Zc.
  eexists. split; [reflexivity|]. split.
  - cbn. f_equal. ring.
  - cbn. f_equal. f_equal; f_equal; field; intros E; apply Hz; rewrite <- E; ring.
Qed.

End Pinhole.

Section ReaderShapes.
Context {A : Type} `{Number A}.

Lemma getitems_Forall {X : Type} (P : X -> Prop) (l : list X) (idx : list nat)
    (sel : list X) :
  getitems l idx = Some sel -> Forall P l -> Forall P sel.
Proof.
  unfold getitems. intros E Hl. apply mapM_Forall2 in E.
  rewrite Forall_forall in Hl.
  induction E as [|i x idx sel Hi _ IH]; constructor; [|assumption].
  apply Hl. eapply nth_error_In. exact Hi.
Qed.

Lemma mapM_Forall_out {X Y : Type} (f : X -> option Y) (P : Y -> Prop) (l : list X)
    (r : list Y) :
  (forall x y, f x = Some y -> P y) -> mapM f l = Some r -> Forall P r.
Proof.
  intros Hf E. apply mapM_Forall2 in E.
  induction E as [|x y l r Hxy _ IH]; constructor; [|assumption]. eapply Hf. exact Hxy.
Qed.

(** What the readers build.  Every intrinsic matrix of [read_qca] and of
    [read_vicon] has the form (fx, 0, cx; 0, fy, cy; 0, 0, 1), the form
    [toml_write] keeps; [read_qca] gives sizes of two numbers, four
    distortion coefficients, rotations of 3x3 and translations of three
    numbers, and [read_vicon] ends every list of distortion coefficients
    with two zeros. *)
Theorem readers_build_camera_matrices (quat2mat : list A -> nat -> option (mat A)) :
  (forall root binning_factor cal,
     read_qca root binning_factor = Some cal ->
     Forall camera_matrix (vnd_K cal) /\
     Forall (fun s => length s = 2) (vnd_S cal) /\
     Forall (fun d => length d = 4) (vnd_D cal) /\
     Forall (has_shape 3 3) (vnd_R cal) /\
     Forall (fun t => length t = 3) (vnd_T cal)) /\
  (forall root cal,
     read_vicon quat2mat root = Some cal ->
     Forall camera_matrix (vnd_K cal) /\
     Forall (fun d => exists dist, d = app dist [nlit 0; nlit 0]) (vnd_D cal)).
Proof.
  split.
  - intros root b cal. unfold read_qca. cbv zeta. intros E.
    repeat match type of E with
           | obind ?o _ = Some _ =>
               let x := fresh "x" in let Ex := fresh "Ex" in
               destruct o as [x|] eqn:Ex; [cbn [obind] in E|discriminate]
           end.
    inversion E; subst cal; clear E. cbn.
    repeat split.
    + eapply getitems_Forall; [eassumption|].
      eapply mapM_Forall_out; [|eassumption]. cbn beta. intros it k Hk.
      destruct (nth_error _ _); [|discriminate]. inversion Hk; subst.
      unfold qca_matrix, camera_matrix. cbv zeta. do 4 eexists. reflexivity.
    + eapply getitems_Forall; [eassumption|]. apply Forall_map, Forall_forall.
      reflexivity.
    + eapply getitems_Forall; [eassumption|]. apply Forall_map, Forall_forall.
      reflexivity.
    + eapply getitems_Forall; [eassumption|]. apply Forall_map, Forall_forall.
      intros t _. unfold qca_rotation, has_shape. cbn. repeat constructor.
    + eapply getitems_Forall; [eassumption|]. apply Forall_map, Forall_forall.
      reflexivity.
  - intros root cal. unfold read_vicon. cbv zeta. intros E.
    repeat match type of E with
           | obind ?o _ = Some _ =>
               let x := fresh "x" in let Ex := fresh "Ex" in
               destruct o as [x|] eqn:Ex; [cbn [obind] in E|discriminate]
           end.
    inversion E; subst cal; clear E. cbn.
    split.
    + eapply getitems_Forall; [eassumption|].
      eapply mapM_Forall_out; [|eassumption]. intros cam k. unfold vicon_matrix.
      destruct (first_keyframe cam) as [kf|]; [|discriminate]. cbn [obind].
      destruct (PRINCIPAL_POINT kf) as [|cu [|cv [|]]]; try discriminate.
      intros Hk. inversion Hk; subst. unfold camera_matrix. do 4 eexists. reflexivity.
    + eapply getitems_Forall; [eassumption|].
      eapply mapM_Forall_out; [|eassumption]. intros cam d. unfold vicon_distortion.
      destruct (match obind (first_keyframe cam) VICON_RADIAL2 with
                | Some l => Some (firstn 2 (skipn 3 l))
                | None => obind (first_keyframe cam) VICON_RADIAL
                end) as [dist|]; [|discriminate].
      cbn [obind]. intros Hd. inversion Hd. now exists dist.
Qed.

End ReaderShapes.

Section MoreWitnesses.
Local Open Scope float_scope.

Lemma NoDup_four_columns : NoDup (columns (firstn 4 Q_two)).
Proof.
  repeat (constructor; [cbn; intuition discriminate|]). constructor.
Qed.

Lemma yup2zup_drops_incomplete_triplet_witness :
  yup2zup (firstn 4 Q_two) = Some [ ("A_Z", [5; 6]); ("A_X", [1; 2]); ("A_Y", [3; 4]) ] /\
  length [ ("A_Z"%string, [5; 6]); ("A_X"%string, [1; 2]); ("A_Y"%string, [3; 4]) ]
  = (3 * (4 / 3))%nat /\
  incl [ ("A_Z", [5; 6]); ("A_X", [1; 2]); ("A_Y", [3; 4]) ] (firstn 4 Q_two).
Proof.
  exact (@yup2zup_drops_incomplete_triplet (list float) (firstn 4 Q_two)
           NoDup_four_columns).
Defined.

Lemma readers_build_camera_matrices_witness :
  (Forall camera_matrix [ [ [1000; 0; 480]; [0; 1000; 270]; [0; 0; 1] ] ] /\
   Forall (fun s => length s = 2%nat) [[960; 540]] /\
   Forall (fun d => length d = 4%nat) [[0; 0; 0; 0]] /\
   Forall (has_shape 3 3) [identity3 (A := float)] /\
   Forall (fun t => length t = 3%nat) [[1; 2; 3]]) /\
  (Forall camera_matrix [ [ [2000; 0; 960]; [0; 2000; 540]; [0; 0; 1] ];
                          [ [2000; 0; 960]; [0; 2000; 540]; [0; 0; 1] ] ] /\
   Forall (fun d => exists dist, d = app dist [0; 0])
          [[0.5; 0.25; 0; 0]; [0.5; 0.25; 0; 0]]).
Proof.
  split.
  - exact (proj1 (@readers_build_camera_matrices float _ quat_oracle) qca_two 2 _ eq_refl).
  - exact (proj2 (@readers_build_camera_matrices float _ quat_oracle) vicon_two _ eq_refl).
Defined.

End MoreWitnesses.

Section PinholeWitness.
Local Open Scope R_scope.

Lemma reprojection_is_pinhole_witness :
  exists P,
    projection_matrix (pinned 1000 640 1000 360) identity3 [0; 0; 5] = Some P /\
    denominator P [1; 2; 5; 1] = Some 10 /\
    reprojection [P] [1; 2; 5; 1] = Some ([740], [560]).
Proof.
  destruct (@reprojection_is_pinhole 1000 1000 640 360 1 0 0 0 1 0 0 0 1 0 0 5 1 2 5)
    as (P & HP & Hd & Hr).
  - lra.
  - exists P. split; [exact HP|]. split.
    + rewrite Hd. f_equal. lra.
    + rewrite Hr. f_equal. f_equal; f_equal; lra.
Defined.

End PinholeWitness.
